(** * Authentication gateway, user database and session lifecycle

    A shallow embedding of the authentication path of the backend
    ([server/database/db.js], [server/middleware/auth.js]) together with the
    session lifecycle, bridge and client reconnection protocol.

    JavaScript values are embedded as the inductive type [jsval], exceptions
    as the error monad [result], objects used as dictionaries (headers, the
    parsed query, a row returned by [getAsObject]) as [gmap string _].
    Writes to the console have no bearing on what the functions return and
    are left out. *)

From Stdlib Require Import ZArith QArith Qpower String Ascii List Bool Lia.
From stdpp Require Import base option gmap strings list fin_maps.
Import ListNotations.

Local Open Scope string_scope.
Local Open Scope Z_scope.

(* ===================================================================== *)
(** ** JavaScript values and exceptions                                    *)
(* ===================================================================== *)

Module JS.

(** The values that flow through the authentication code: [undefined],
    [null], numbers (integers suffice: row ids, counts, flags) and
    strings. *)
Inductive jsval : Type :=
| JUndefined
| JNull
| JNum (n : Z)
| JStr (s : string).

(** [ToBoolean]: [undefined], [null], [0] and the empty string are falsy. *)
Definition truthy (v : jsval) : bool :=
  match v with
  | JUndefined | JNull => false
  | JNum n => negb (n =? 0)
  | JStr s => negb (String.eqb s EmptyString)
  end.

(** [a && b] and [a || b] return one of their operands. *)
Definition js_and (a b : jsval) : jsval := if truthy a then b else a.
Definition js_or (a b : jsval) : jsval := if truthy a then a else b.

(** A property read [obj.k] on an object that holds strings: a missing
    property reads as [undefined]. *)
Definition prop (o : gmap string string) (k : string) : jsval :=
  match o !! k with
  | Some s => JStr s
  | None => JUndefined
  end.

(** [s.split(c)] for a one-character separator. The result is never
    empty: splitting the empty string yields one empty piece. *)
Fixpoint split (sep : ascii) (s : string) : list string :=
  match s with
  | EmptyString => [EmptyString]
  | String c rest =>
      if Ascii.eqb c sep then EmptyString :: split sep rest
      else match split sep rest with
           | piece :: pieces => String c piece :: pieces
           | [] => [String c EmptyString]
           end
  end.

(** [arr[i]] on an array of strings; out of range reads [undefined]. *)
Definition index (arr : list string) (i : nat) : jsval :=
  match nth_error arr i with
  | Some s => JStr s
  | None => JUndefined
  end.

(** A thrown [Error]: its [name] and [message]. *)
Record error : Type := Error { name : string; message : string }.

(** A computation that returns normally or throws. *)
Inductive result (A : Type) : Type :=
| Ok (a : A)
| Throw (e : error).
Global Arguments Ok {A} a.
Global Arguments Throw {A} e.

Definition bind {A B} (m : result A) (k : A -> result B) : result B :=
  match m with
  | Ok a => k a
  | Throw e => Throw e
  end.

(** [try { m } catch (e) { h e }] *)
Definition try_catch {A} (m : result A) (h : error -> result A) : result A :=
  match m with
  | Ok a => Ok a
  | Throw e => h e
  end.

(** Sequencing is written [x ← m; k] below. *)
Global Instance result_ret : MRet result := fun A a => Ok a.
Global Instance result_bind : MBind result := fun A B k m => bind m k.

Definition returns {A} (m : result A) : Prop := exists a, m = Ok a.

End JS.
Import JS.

(* ===================================================================== *)
(** ** The user database: [server/database/db.js]                          *)
(* ===================================================================== *)

Module Db.

(** A value stored in a column. *)
Inductive sqlval : Type :=
| SqlNull
| SqlInt (n : Z)
| SqlText (s : string).

(** What sql.js hands to JavaScript for a stored value. *)
Definition to_js (v : sqlval) : jsval :=
  match v with
  | SqlNull => JNull
  | SqlInt n => JNum n
  | SqlText s => JStr s
  end.

(** A row of [users]; the columns are the ones the queries of [db.js]
    name. [id] is the integer key, [is_active] a nullable flag. *)
Record user_row : Type := UserRow {
  id : Z;
  username : string;
  password_hash : string;
  created_at : sqlval;
  last_login : sqlval;
  is_active : sqlval
}.

(** The database [db] as the queries see it: compiling a statement over
    [users] either reaches the rows of the table or makes the engine
    throw (the table is absent until [initializeDatabase] has run the
    schema script; the file may be locked). *)
Record database : Type := Database { users : result (list user_row) }.

(** A prepared statement: its column names and the rows it yields once
    its parameters are bound, in order. *)
Record statement : Type := Statement {
  columns : list string;
  rows : list (list sqlval)
}.

(** The engine's complaint on a fresh database. *)
Definition no_such_table : error :=
  Error "Error" "no such table: users".

Definition fresh : database := Database (Throw no_such_table).

(** The predicate [is_active = 1] of the [WHERE] clauses: a [NULL] flag
    does not satisfy it. *)
Definition active (r : user_row) : bool :=
  match is_active r with
  | SqlInt n => n =? 1
  | _ => false
  end.

(** [db.prepare('SELECT COUNT( * ) as count FROM users')] *)
Definition prepare_count (db : database) : result statement :=
  match users db with
  | Throw e => Throw e
  | Ok table =>
      Ok (Statement ["count"] [[SqlInt (Z.of_nat (length table))]])
  end.

(** [db.prepare('SELECT * FROM users WHERE username = ? AND is_active = 1')]
    with [?] bound to [name]. *)
Definition prepare_by_username (db : database) (name : string)
  : result statement :=
  match users db with
  | Throw e => Throw e
  | Ok table =>
      Ok (Statement
            ["id"; "username"; "password_hash"; "created_at"; "last_login";
             "is_active"]
            (map (fun r => [SqlInt (id r); SqlText (username r);
                            SqlText (password_hash r); created_at r;
                            last_login r; is_active r])
                 (List.filter (fun r => String.eqb (username r) name && active r)
                         table)))
  end.

(** [db.prepare('SELECT id, username, created_at, last_login FROM users
    WHERE id = ? AND is_active = 1')] with [?] bound to [userId]. *)
Definition prepare_by_id (db : database) (userId : Z) : result statement :=
  match users db with
  | Throw e => Throw e
  | Ok table =>
      Ok (Statement
            ["id"; "username"; "created_at"; "last_login"]
            (map (fun r => [SqlInt (id r); SqlText (username r);
                            created_at r; last_login r])
                 (List.filter (fun r => (id r =? userId) && active r) table)))
  end.

(** [stmt.step()]: is there a row to read? *)
Definition step (stmt : statement) : bool :=
  match rows stmt with
  | [] => false
  | _ :: _ => true
  end.

(** [stmt.get()]: the values of the current row (none when the statement
    yielded no row). *)
Definition get (stmt : statement) : list sqlval :=
  match rows stmt with
  | [] => []
  | r :: _ => r
  end.

(** [values[i]] on an array of column values. *)
Definition value_at (values : list sqlval) (i : nat) : jsval :=
  match nth_error values i with
  | Some v => to_js v
  | None => JUndefined
  end.

(** [stmt.getAsObject(params)]: steps once and pairs every column name
    with the value at its position; without a row each one is
    [undefined]. *)
Definition getAsObject (stmt : statement) : gmap string jsval :=
  list_to_map (imap (fun i c => (c, value_at (get stmt) i)) (columns stmt)).

(** [obj.k] on an object holding JavaScript values. *)
Definition field (o : gmap string jsval) (k : string) : jsval :=
  default JUndefined (o !! k).

(** [count > 0] *)
Definition gt0 (v : jsval) : bool :=
  match v with
  | JNum n => 0 <? n
  | _ => false
  end.

(** [userDb.hasUsers]. The debug logging and [stmt.reset()], which only
    rewinds the statement, leave the returned value alone and are not
    represented. *)
Definition hasUsers (db : database) : result bool :=
  try_catch
    (stmt ← prepare_count db;
     if step stmt then
       let result := get stmt in
       let count := value_at result 0 in
       Ok (gt0 count)
     else Ok false)
    (fun err => Ok false).

(** [userDb.getUserByUsername]; [None] is [null]. *)
Definition getUserByUsername (db : database) (name : string)
  : result (option (gmap string jsval)) :=
  try_catch
    (stmt ← prepare_by_username db name;
     let result := getAsObject stmt in
     Ok (if truthy (field result "id") then Some result else None))
    (fun err => Throw err).

(** [userDb.getUserById]; [None] is [null]. *)
Definition getUserById (db : database) (userId : Z)
  : result (option (gmap string jsval)) :=
  try_catch
    (stmt ← prepare_by_id db userId;
     let result := getAsObject stmt in
     Ok (if truthy (field result "id") then Some result else None))
    (fun err => Throw err).

(** The object [getAsObject] yields for a row of the by-id query. *)
Definition by_id_object (r : user_row) : gmap string jsval :=
  list_to_map [("id", JNum (id r)); ("username", JStr (username r));
               ("created_at", to_js (created_at r));
               ("last_login", to_js (last_login r))].

(** The object [getAsObject] yields for a row of the by-name query. *)
Definition by_username_object (r : user_row) : gmap string jsval :=
  list_to_map [("id", JNum (id r)); ("username", JStr (username r));
               ("password_hash", JStr (password_hash r));
               ("created_at", to_js (created_at r));
               ("last_login", to_js (last_login r));
               ("is_active", to_js (is_active r))].

(** Every row of [table] under the key [uid] is deactivated. *)
Definition deactivated_id (table : list user_row) (uid : Z) : Prop :=
  forall r, In r table -> id r = uid -> is_active r <> SqlInt 1.

Definition deactivated_name (table : list user_row) (name : string) : Prop :=
  forall r, In r table -> username r = name -> is_active r <> SqlInt 1.

End Db.

(* ===================================================================== *)
(** ** Authentication middleware: [server/middleware/auth.js]              *)
(* ===================================================================== *)

Module Auth.
Import Db.

(** The payload of a verified token; [generateToken] signs
    [{ userId: user.id, username: user.username }]. *)
Record jwt_payload : Type := Payload { userId : Z; payload_username : string }.

(** An incoming request: Node's [IncomingMessage], with the [query] object
    Express adds and the [user] property the middleware sets. Header names
    arrive in lower case. *)
Record request : Type := Request {
  url : string;
  headers : gmap string string;
  query : gmap string jsval;
  user : option (gmap string jsval)
}.

Definition set_user (req : request) (u : gmap string jsval) : request :=
  Request (url req) (headers req) (query req) (Some u).

(** [authHeader.split(' ')[1]]; only evaluated behind [authHeader &&], that
    is on a non-empty string. *)
Definition split_1 (authHeader : jsval) : jsval :=
  match authHeader with
  | JStr s => index (split " " s) 1
  | _ => JUndefined
  end.

(** [url.searchParams.get(k)]: the first value under [k], or [null]. *)
Definition searchParams_get (params : list (string * string)) (k : string)
  : jsval :=
  match List.find (fun p => String.eqb (fst p) k) params with
  | Some p => JStr (snd p)
  | None => JNull
  end.

(** What the middleware does with the response: hand over to the next
    handler with [req.user] set, or answer with a status and an error
    text. *)
Inductive outcome : Type :=
| Next (req : request)
| Respond (status : Z) (err : string).

(** What the authorization header contributes on either path:
    [authHeader && authHeader.split(' ')[1]]. *)
Definition header_token (req : request) : jsval :=
  js_and (prop (headers req) "authorization")
         (split_1 (prop (headers req) "authorization")).

(** The object literal [{ id: i, username: n }]. *)
Definition principal_object (i n : jsval) : gmap string jsval :=
  <["id" := i]> (<["username" := n]> ∅).

Section Middleware.

(** [new URL(u, 'http://localhost').searchParams] as the list of its
    decoded name/value pairs; the constructor throws on a string that
    is not a URL. *)
Variable URL_searchParams : string -> result (list (string * string)).

(** [jwt.verify(token, JWT_SECRET)]: the decoded payload, or a thrown
    [JsonWebTokenError], [TokenExpiredError] or [NotBeforeError]. *)
Variable jwt_verify : jsval -> result jwt_payload.

(** The database the module-level [userDb] reads. *)
Variable db : database.

(** The token expression at the head of [authenticateToken]; [&&] binds
    tighter than [||]. *)
Definition authenticateToken_token (req : request) : jsval :=
  let authHeader := prop (headers req) "authorization" in
  js_or (js_or (js_and authHeader (split_1 authHeader))
               (prop (headers req) "x-auth-token"))
        (field (query req) "token").

(** The [catch] block of [authenticateToken]. *)
Definition authenticateToken_catch (e : error) : outcome :=
  if String.eqb (name e) "JsonWebTokenError" then
    Respond 401 "Invalid token format"
  else if String.eqb (name e) "TokenExpiredError" then
    Respond 401 "Token expired"
  else if String.eqb (name e) "NotBeforeError" then
    Respond 401 "Token not active yet"
  else Respond 500 "Authentication error".

Definition authenticateToken (req : request) : result outcome :=
  try_catch
    (let token := authenticateToken_token req in
     if negb (truthy token) then Ok (Respond 401 "Access token required")
     else
       decoded ← jwt_verify token;
       user ← getUserById db (userId decoded);
       match user with
       | None => Ok (Respond 401 "Invalid token: user not found")
       | Some u => Ok (Next (set_user req u))
       end)
    (fun e => Ok (authenticateToken_catch e)).

(** [authenticateWebSocket]; [None] is [null], a principal is the object
    [{ id: user.id, username: user.username }]. *)
Definition authenticateWebSocket (token : jsval)
  : result (option (gmap string jsval)) :=
  try_catch
    (if negb (truthy token) then Ok None
     else
       decoded ← jwt_verify token;
       user ← getUserById db (userId decoded);
       match user with
       | None => Ok None
       | Some u => Ok (Some (principal_object (field u "id")
                                              (field u "username")))
       end)
    (fun e => Ok None).

Definition extractWebSocketToken (req : request) : result jsval :=
  params ← URL_searchParams (url req);
  let tokenFromQuery := searchParams_get params "token" in
  let authHeader := prop (headers req) "authorization" in
  let tokenFromHeader := js_and authHeader (split_1 authHeader) in
  Ok (js_or tokenFromQuery tokenFromHeader).

(** The [verifyClient] callback given to [WebSocketServer]: the verdict
    and [info.req], on which acceptance stores the principal. *)
Definition verifyClient (req : request) : result (bool * request) :=
  token ← extractWebSocketToken req;
  user ← authenticateWebSocket token;
  match user with
  | None => Ok (false, req)
  | Some u => Ok (true, set_user req u)
  end.

End Middleware.

End Auth.

(* ===================================================================== *)
(** ** The upgrade handshake                                               *)
(* ===================================================================== *)

Module Gateway.
Import Auth.

(** An open channel; the connection handler reads the principal from
    [request.user]. *)
Record connection : Type := Connection {
  principal : option (gmap string jsval);
  upgrade_request : request
}.

(** The server object: the set of sockets it has opened
    ([wss.clients]), newest first. *)
Record server : Type := Server { clients : list connection }.

Inductive upgrade : Type :=
| Rejected (status : Z)
| Opened (c : connection).

Section Handshake.
Variable URL_searchParams : string -> result (list (string * string)).
Variable jwt_verify : jsval -> result jwt_payload.
Variable db : Db.database.

(** How [WebSocketServer] of the [ws] package treats its synchronous
    [verifyClient] option while handling an upgrade request: on a false
    verdict the handshake is aborted with status 401 and no socket
    object is made; on a true one the upgrade completes, the new socket
    joins [clients] and the connection handler receives it with the
    request. *)
Definition handleUpgrade (srv : server) (req : request)
  : result (server * upgrade) :=
  '(accepted, req') ← verifyClient URL_searchParams jwt_verify db req;
  if (accepted : bool) then
    let c := Connection (user req') req' in
    Ok (Server (c :: clients srv), Opened c)
  else Ok (srv, Rejected 401).

End Handshake.

End Gateway.

(* ===================================================================== *)
(** ** Session registry and process lifecycle manager                      *)
(* ===================================================================== *)

Module Lifecycle.

Inductive SessionState : Type := spawning | running | draining | terminated.

Inductive SessionKind : Type := conversation | shell.

(** Captured exit diagnostics of a spawn that failed. *)
Inductive diagnostics : Type :=
| binary_missing (path : string)
| immediate_exit (code : Z) (stderr : string).

(** Why a session ended. *)
Inductive ending : Type :=
| spawn_failed (d : diagnostics)
| exited (code : Z)
| killed.

(** The labels of the state graph. *)
Inductive event : Type :=
| spawn_success (handle : nat)
| spawn_failure (d : diagnostics)
| explicit_terminate (reason : string)
| idle_timeout
| process_exit (code : Z)
| exit_observed (code : Z)
| grace_period_elapsed.

(** Modelled from the spec: the state graph of the lifecycle manager, whose
    source is not among the files at hand. The edges are
    spawning -[spawn success]-> running
    -[explicit terminate | idle timeout | process exit]-> draining
    -[exit observed | grace period elapsed]-> terminated, and the error
    path spawning -[spawn failure]-> terminated. [None]: the graph has no
    edge with that label at that state. *)
Definition transition (s : SessionState) (e : event) : option SessionState :=
  match s, e with
  | spawning, spawn_success _ => Some running
  | spawning, spawn_failure _ => Some terminated
  | running, explicit_terminate _ => Some draining
  | running, idle_timeout => Some draining
  | running, process_exit _ => Some draining
  | draining, exit_observed _ => Some terminated
  | draining, grace_period_elapsed => Some terminated
  | _, _ => None
  end.

(** Position along spawning, running, draining, terminated. *)
Definition rank (s : SessionState) : nat :=
  match s with
  | spawning => 0
  | running => 1
  | draining => 2
  | terminated => 3
  end.

(** The state that follows in the chain. *)
Definition succ (s : SessionState) : SessionState :=
  match s with
  | spawning => running
  | running => draining
  | draining => terminated
  | terminated => terminated
  end.

(** Modelled from the spec: the Session of the data model, with the ending
    it records and the connection that currently receives live output. *)
Record Session : Type := mkSession {
  id : string;
  kind : SessionKind;
  processHandle : option nat;
  projectPath : string;
  createdAt : Z;
  lastActivityAt : Z;
  state : SessionState;
  outputBuffer : list string;
  attached : option nat;
  ended : option ending
}.

Definition with_state (s : Session) (st : SessionState)
           (h : option nat) (en : option ending) : Session :=
  mkSession (id s) (kind s) h (projectPath s) (createdAt s)
            (lastActivityAt s) st (outputBuffer s) (attached s) en.

(** What an event records on the session besides the new state. *)
Definition handle_after (s : Session) (e : event) : option nat :=
  match e with
  | spawn_success h => Some h
  | spawn_failure _ | exit_observed _ | grace_period_elapsed => None
  | _ => processHandle s
  end.

Definition ending_after (s : Session) (e : event) : option ending :=
  match e, ended s with
  | spawn_failure d, _ => Some (spawn_failed d)
  | process_exit c, _ => Some (exited c)
  | exit_observed c, None => Some (exited c)
  | grace_period_elapsed, None => Some killed
  | _, en => en
  end.

(** Modelled from the spec: a lifecycle operation takes the edge of the
    graph when there is one and leaves the session alone otherwise. *)
Definition apply (s : Session) (e : event) : Session :=
  match transition (state s) e with
  | Some st => with_state s st (handle_after s e) (ending_after s e)
  | None => s
  end.

Definition run (s : Session) (es : list event) : Session :=
  fold_left apply es s.

(** The states a session is observed in while [es] is applied. *)
Fixpoint observed (s : Session) (es : list event) : list SessionState :=
  state s ::
  match es with
  | [] => []
  | e :: es' => observed (apply s e) es'
  end.

(** A session before its process has been started. *)
Definition fresh_session (sid : string) (now : Z) (k : SessionKind)
           (path : string) : Session :=
  mkSession sid k None path now now spawning [] None None.

(** The outcome of starting the child process. *)
Inductive spawned : Type :=
| spawn_ok (handle : nat)
| spawn_error (d : diagnostics).

Section Manager.

(** Starting the command line tool in a directory, freshly or with its
    resume argument. *)
Variable spawn : SessionKind -> string -> option string -> spawned.

(** Ids for which a prior invocation exists. *)
Variable prior : string -> bool.

(** The resume argument: given when [resumeId] names a prior
    invocation. *)
Definition resume_argument (resumeId : option string) : option string :=
  match resumeId with
  | Some r => if prior r then Some r else None
  | None => None
  end.

(** Modelled from the spec: [Create(kind, projectPath, resumeId?)]. The
    session starts in [spawning]; the resume argument is passed when
    [resumeId] names a prior invocation; the result of the spawn is fed
    to the state graph, and the session is returned in either case. *)
Definition Create (fresh_id : string) (now : Z) (k : SessionKind)
           (path : string) (resumeId : option string) : result Session :=
  let s0 := fresh_session (default fresh_id resumeId) now k path in
  match spawn k path (resume_argument resumeId) with
  | spawn_ok h => Ok (apply s0 (spawn_success h))
  | spawn_error d => Ok (apply s0 (spawn_failure d))
  end.

End Manager.

(** *** The registry and the bridge *)

Record Registry : Type := mkRegistry {
  sessions : gmap string Session;
  connections : gset nat
}.

Inductive pump_end : Type := eof | connection_close.

(** The operations that reach the registry. *)
Inductive op : Type :=
| Attach (sid : string) (conn : nat)
| Input (sid : string) (bytes : string) (now : Z)
| Resize (sid : string) (cols rows : Z)
| Output (sid : string) (chunk : string)
| Terminate (sid : string) (reason : string)
| GraceElapsed (sid : string)
| ProcessExited (sid : string) (code : Z)
| ReaperTick (now : Z)
| PumpEnded (sid : string) (conn : nat) (why : pump_end).

Definition touch (now : Z) (s : Session) : Session :=
  match state s with
  | running =>
      mkSession (id s) (kind s) (processHandle s) (projectPath s)
                (createdAt s) now (state s) (outputBuffer s) (attached s)
                (ended s)
  | _ => s
  end.

Definition attach (conn : nat) (s : Session) : Session :=
  mkSession (id s) (kind s) (processHandle s) (projectPath s) (createdAt s)
            (lastActivityAt s) (state s) (outputBuffer s) (Some conn)
            (ended s).

(** Pump cleanup: the connection leaves the fan-out of the session. *)
Definition detach (conn : nat) (s : Session) : Session :=
  mkSession (id s) (kind s) (processHandle s) (projectPath s) (createdAt s)
            (lastActivityAt s) (state s) (outputBuffer s)
            (match attached s with
             | Some c => if Nat.eqb c conn then None else Some c
             | None => None
             end)
            (ended s).

(** The bounded buffer keeps the newest [cap] chunks. *)
Definition buffer (cap : nat) (chunk : string) (s : Session) : Session :=
  let b := (outputBuffer s ++ [chunk])%list in
  mkSession (id s) (kind s) (processHandle s) (projectPath s) (createdAt s)
            (lastActivityAt s) (state s) (skipn (length b - cap)%nat b)
            (attached s) (ended s).

(** The entry of a terminated session is released. *)
Definition release (sid : string) (m : gmap string Session)
  : gmap string Session :=
  match m !! sid with
  | Some s =>
      match state s with
      | terminated => delete sid m
      | _ => m
      end
  | None => m
  end.

Section Bridge.
Variable idle_threshold : Z.
Variable buffer_cap : nat.

(** The reaper's test: nobody attached and no activity for longer than
    the threshold. *)
Definition idle (now : Z) (s : Session) : bool :=
  match attached s with
  | None => (idle_threshold <? now - lastActivityAt s)%Z
  | Some _ => false
  end.

Definition reap (now : Z) (s : Session) : Session :=
  if idle now s then apply s idle_timeout else s.

(** Modelled from the spec: the single-writer operations of the
    lifecycle manager and the cleanup of the bridge's pumps. Only
    [Terminate], the reaper and an observed process exit feed the state
    graph; the end of a pump detaches its connection. *)
Definition exec (r : Registry) (o : op) : Registry :=
  match o with
  | Attach sid conn =>
      mkRegistry (alter (attach conn) sid (sessions r))
                 ({[conn]} ∪ connections r)
  | Input sid _ now =>
      mkRegistry (alter (touch now) sid (sessions r)) (connections r)
  | Resize _ _ _ => r
  | Output sid chunk =>
      mkRegistry (alter (buffer buffer_cap chunk) sid (sessions r))
                 (connections r)
  | Terminate sid reason =>
      mkRegistry
        (alter (fun s => apply s (explicit_terminate reason)) sid
               (sessions r))
        (connections r)
  | GraceElapsed sid =>
      mkRegistry
        (release sid
           (alter (fun s => apply s grace_period_elapsed) sid (sessions r)))
        (connections r)
  | ProcessExited sid code =>
      mkRegistry
        (release sid
           (alter (fun s => apply (apply s (process_exit code))
                                  (exit_observed code))
                  sid (sessions r)))
        (connections r)
  | ReaperTick now =>
      mkRegistry (reap now <$> sessions r) (connections r)
  | PumpEnded sid conn why =>
      mkRegistry (alter (detach conn) sid (sessions r))
                 (match why with
                  | eof => connections r
                  | connection_close => connections r ∖ {[conn]}
                  end)
  end.

(** The state of the session registered under [sid], if any. *)
Definition state_of (r : Registry) (sid : string) : option SessionState :=
  state <$> sessions r !! sid.

End Bridge.

End Lifecycle.

(* ===================================================================== *)
(** ** Client reconnection protocol                                        *)
(* ===================================================================== *)

Module Reconnect.

Inductive status : Type := disconnected | connecting | connected | error.

(** Delays are exact rationals, in milliseconds. *)
Record config : Type := mkConfig {
  base_delay : Q;
  max_attempts : nat
}.

Record client : Type := mkClient {
  connection_state : status;
  attempts : nat
}.

(** The close code of a normal closure. *)
Definition normal_closure : Z := 1000.

(** Modelled from the spec: the delay before reconnect attempt [n], base
    delay × 1.5^n; the client hook that computes it is not among the
    files at hand. *)
Definition backoff (cfg : config) (n : nat) : Q :=
  (base_delay cfg * (3 # 2) ^ Z.of_nat n)%Q.

(** Modelled from the spec: the close handler. A close with a code other
    than the normal one, while the attempts budget lasts, schedules a
    reconnect after the backoff delay and uses up one attempt; any other
    close schedules nothing. *)
Definition on_close (cfg : config) (c : client) (code : Z)
  : client * option Q :=
  if code =? normal_closure then (mkClient disconnected (attempts c), None)
  else if (attempts c <? max_attempts cfg)%nat then
    (mkClient disconnected (S (attempts c)),
     Some (backoff cfg (attempts c)))
  else (mkClient disconnected (attempts c), None).

(** The scheduled reconnect fires: the client dials again. *)
Definition on_timer (c : client) : client :=
  mkClient connecting (attempts c).

(** Modelled from the spec: a run of the protocol in which every attempt
    ends in a close with the next code of [codes]; the result lists, close
    by close, the delay that was scheduled, if any. *)
Fixpoint schedule (cfg : config) (c : client) (codes : list Z)
  : list (option Q) :=
  match codes with
  | [] => []
  | code :: rest =>
      let '(c', d) := on_close cfg c code in
      d :: schedule cfg (on_timer c') rest
  end.

Definition start : client := mkClient connected 0.

End Reconnect.

(* ===================================================================== *)
(** ** Concrete collaborators for the examples                             *)
(* ===================================================================== *)

Module Demo.
Import Db Auth.

(** [s] up to the first [sep], and what follows it if [sep] occurs. *)
Fixpoint cut (sep : ascii) (s : string) : string * option string :=
  match s with
  | EmptyString => (EmptyString, None)
  | String c rest =>
      if Ascii.eqb c sep then (EmptyString, Some rest)
      else let '(a, b) := cut sep rest in (String c a, b)
  end.

(** The query pairs of a request target written with plain characters
    only (no escapes, no [+], no fragment), where the URL parser has
    nothing to decode. *)
Definition plain_searchParams (u : string)
  : result (list (string * string)) :=
  match snd (cut "?" u) with
  | None => Ok []
  | Some q =>
      Ok (map (fun kv => let '(k, v) := cut "=" kv in (k, default EmptyString v))
              (List.filter (fun kv => negb (String.eqb kv EmptyString))
                           (split "&" q)))
  end.

(** A verifier that knows three tokens. *)
Definition verify (token : jsval) : result jwt_payload :=
  match token with
  | JStr "token-of-1" => Ok (Payload 1 "alice")
  | JStr "token-of-2" => Ok (Payload 2 "bob")
  | JStr "old-token" => Throw (Error "TokenExpiredError" "jwt expired")
  | _ => Throw (Error "JsonWebTokenError" "jwt malformed")
  end.

(** Two users; the second one has been deactivated. *)
Definition alice : user_row :=
  UserRow 1 "alice" "$2a$12$aaaa" (SqlText "2024-01-01") SqlNull (SqlInt 1).
Definition bob : user_row :=
  UserRow 2 "bob" "$2a$12$bbbb" (SqlText "2024-01-02") SqlNull (SqlInt 0).
Definition table : list user_row := [alice; bob].
Definition db : database := Database (Ok table).

(** An upgrade request that carries one token in the query and another
    one in the authorization header. *)
Definition both : request :=
  Request "/ws?token=token-of-1" {["authorization" := "Bearer token-of-2"]}
          ∅ None.

(** An upgrade request whose only token has expired. *)
Definition stale : request :=
  Request "/shell?token=old-token" ∅ ∅ None.

(** An HTTP request with a token in each of the three places. *)
Definition three : request :=
  Request "/api/auth/user?token=in-query"
          (<["authorization" := "Bearer in-bearer"]>
             {["x-auth-token" := "in-x-auth"]})
          {["token" := JStr "in-query"]} None.

(** A shell session and a history of lifecycle operations, some of them
    out of place. *)
Definition session0 : Lifecycle.Session :=
  Lifecycle.fresh_session "s-1" 0 Lifecycle.shell "/tmp/p1".

Definition history : list Lifecycle.event :=
  [Lifecycle.spawn_success 42; Lifecycle.explicit_terminate "user";
   Lifecycle.spawn_success 43; Lifecycle.grace_period_elapsed;
   Lifecycle.process_exit 0].

(** A machine on which the command line tool is not installed. *)
Definition no_binary (k : Lifecycle.SessionKind) (path : string)
           (resume : option string) : Lifecycle.spawned :=
  Lifecycle.spawn_error (Lifecycle.binary_missing "claude").

(** A registry with one running session that connection 5 is attached
    to. *)
Definition live : Lifecycle.Registry :=
  Lifecycle.mkRegistry
    {["s-1" := Lifecycle.attach 5
                 (Lifecycle.apply session0 (Lifecycle.spawn_success 42))]}
    {[5%nat]}.

(** One second of base delay and five attempts. *)
Definition policy : Reconnect.config := Reconnect.mkConfig 1000 5.

End Demo.

(* ===================================================================== *)
(** ** Values as keys of a [Map]                                           *)
(* ===================================================================== *)

Module Keys.

Global Instance jsval_eq_dec : EqDecision jsval.
Proof. solve_decision. Defined.

Global Instance jsval_countable : Countable jsval.
Proof.
  refine (inj_countable'
            (fun v => match v with
                      | JUndefined => inl (inl tt)
                      | JNull => inl (inr tt)
                      | JNum n => inr (inl n)
                      | JStr s => inr (inr s)
                      end)
            (fun x => match x with
                      | inl (inl _) => JUndefined
                      | inl (inr _) => JNull
                      | inr (inl n) => JNum n
                      | inr (inr s) => JStr s
                      end) _).
  now intros [].
Defined.

(** [a !== b] on these values: same type and same value. *)
Definition strict_ne (a b : jsval) : bool := negb (bool_decide (a = b)).

End Keys.
Import Keys.

(* ===================================================================== *)
(** ** Writes to the user database: [server/database/db.js]                *)
(* ===================================================================== *)

Module DbWrite.
Import Db.

(** [Number.MAX_SAFE_INTEGER]: up to it a stored integer and the number
    JavaScript reads for it are the same; beyond it the number read is
    rounded. *)
Definition MAX_SAFE_INTEGER : Z := 2 ^ 53 - 1.

(** Every key of the table is read by JavaScript as it is stored. *)
Definition safe_ids (table : list user_row) : Prop :=
  forall r, In r table -> - MAX_SAFE_INTEGER <= id r <= MAX_SAFE_INTEGER.

(** What [UPDATE users SET last_login = CURRENT_TIMESTAMP WHERE id = ?] does
    to one row; [now] is the text of the current timestamp. *)
Definition stamp (userId : Z) (now : string) (r : user_row) : user_row :=
  if id r =? userId then
    UserRow (id r) (username r) (password_hash r) (created_at r)
            (SqlText now) (is_active r)
  else r.

Section Persist.

(** [saveDatabase]: [db.export()] written to the database file; the write
    may throw. *)
Variable saveDatabase : database -> result unit.


End Persist.

End DbWrite.

(* ===================================================================== *)
(** ** Guards in front of the routes: [server/middleware/auth.js]          *)
(* ===================================================================== *)

Module Guards.
Import Db Auth.

(** [validateApiKey]; [env] is [process.env]. *)
Definition validateApiKey (env : gmap string string) (req : request)
  : outcome :=
  let configuredApiKey := prop env "API_KEY" in
  if negb (truthy configuredApiKey) then Next req
  else
    let providedKey := js_or (prop (headers req) "x-api-key")
                             (field (query req) "api_key") in
    if negb (truthy providedKey) || strict_ne providedKey configuredApiKey
    then Respond 401 "Valid API key required"
    else Next req.

(** [s.length] *)
Definition js_length (v : jsval) : Z :=
  match v with
  | JStr s => Z.of_nat (String.length s)
  | _ => 0
  end.

(** [validateAuthHeaders] *)
Definition validateAuthHeaders (req : request) : result bool :=
  let authHeader := prop (headers req) "authorization" in
  if truthy authHeader then
    match authHeader with
    | JStr h =>
        if negb (String.prefix "Bearer " h) then
          Throw (Error "Error" "Invalid authorization header format")
        else
          let token := index (split " " h) 1 in
          if negb (truthy token) || (js_length token <? 10) then
            Throw (Error "Error" "Invalid token format")
          else Ok true
    | _ => Throw (Error "TypeError" "authHeader.startsWith is not a function")
    end
  else Ok true.

(** The text of [s] before the first [sep]. *)
Fixpoint word (sep : ascii) (s : string) : string :=
  match s with
  | EmptyString => EmptyString
  | String c rest =>
      if Ascii.eqb c sep then EmptyString else String c (word sep rest)
  end.

(** A request together with what the limiter reads of its peer: [req.ip]
    and [req.connection.remoteAddress]. *)
Record peer_request : Type := PeerRequest {
  http : request;
  ip : jsval;
  remoteAddress : jsval
}.

Definition clientId (c : peer_request) : jsval :=
  js_or (ip c) (remoteAddress c).

(** The middleware [createRateLimiter(windowMs, max)] returns. [requests]
    is the [Map] of the closure, from client to the times of its admitted
    requests, oldest first; [now] is [Date.now()]. *)
Definition rateLimiter (windowMs max : Z) (requests : gmap jsval (list Z))
           (c : peer_request) (now : Z)
  : gmap jsval (list Z) * outcome :=
  let windowStart := now - windowMs in
  let requests1 :=
    match requests !! clientId c with
    | Some times =>
        <[clientId c := List.filter (fun time => windowStart <? time) times]>
          requests
    | None => <[clientId c := []]> requests
    end in
  let history := default [] (requests1 !! clientId c) in
  let requestCount := Z.of_nat (length history) in
  if max <=? requestCount then
    (requests1, Respond 429 "Too many requests")
  else
    (<[clientId c := (history ++ [now])%list]> requests1, Next (http c)).

(** [authRateLimit = createRateLimiter(15 * 60 * 1000, 5)] *)
Definition authRateLimit := rateLimiter (15 * 60 * 1000) 5.

(** A log entry of [serve]: who asked, when, and whether the request was
    admitted. *)
Record served : Type := Served {
  who : jsval;
  at_time : Z;
  admitted : bool
}.

Definition is_next (o : outcome) : bool :=
  match o with
  | Next _ => true
  | Respond _ _ => false
  end.

(** The limiter run over a sequence of requests, each with the clock value
    it is handled at. *)
Fixpoint serve (windowMs max : Z) (requests : gmap jsval (list Z))
         (trace : list (peer_request * Z))
  : gmap jsval (list Z) * list served :=
  match trace with
  | [] => (requests, [])
  | (c, now) :: rest =>
      let '(requests', o) := rateLimiter windowMs max requests c now in
      let '(final, log) := serve windowMs max requests' rest in
      (final, Served (clientId c) now (is_next o) :: log)
  end.

(** The times at which requests of client [k] were admitted. *)
Definition admitted_times (k : jsval) (log : list served) : list Z :=
  map at_time
      (List.filter (fun e => bool_decide (who e = k) && admitted e) log).

(** The times of the requests of a trace, in order. *)
Definition times (trace : list (peer_request * Z)) : list Z := map snd trace.

(** The clock does not run backwards along [ts], which starts at or after
    [t0]. *)
Fixpoint clock_from (t0 : Z) (ts : list Z) : Prop :=
  match ts with
  | [] => True
  | t :: rest => t0 <= t /\ clock_from t rest
  end.

(** The times of [l] inside the window that ends at [now]. *)
Definition in_window (windowMs now : Z) (l : list Z) : list Z :=
  List.filter (fun time => now - windowMs <? time) l.

(** What the limiter's [Map] holds after a run that ended at clock value
    [T] with the log [log]: for every client that has asked, its admitted
    times later than some cut at least a window before [T], and never more
    than [max] of them. *)
Definition limiter_inv (windowMs max T : Z) (requests : gmap jsval (list Z))
           (log : list served) : Prop :=
  forall k,
    match requests !! k with
    | None => admitted_times k log = []
    | Some l =>
        exists cut, cut <= T - windowMs /\
                    l = List.filter (fun time => cut <? time)
                                    (admitted_times k log) /\
                    Z.of_nat (length l) <= Z.max 0 max
    end.

Section Chain.
Variable jwt_verify : jsval -> result jwt_payload.
Variable db : database.
Variable env : gmap string string.

(** The chain [fullProtection = [validateApiKey, authRateLimit,
    authenticateToken]] as the router runs it: each middleware either
    answers, which ends the chain, or calls [next()]. *)
Definition fullProtection (requests : gmap jsval (list Z))
           (c : peer_request) (now : Z)
  : result (gmap jsval (list Z) * outcome) :=
  match validateApiKey env (http c) with
  | Respond status e => Ok (requests, Respond status e)
  | Next req1 =>
      match authRateLimit requests
                          (PeerRequest req1 (ip c) (remoteAddress c)) now with
      | (requests', Respond status e) => Ok (requests', Respond status e)
      | (requests', Next req2) =>
          o ← authenticateToken jwt_verify db req2;
          Ok (requests', o)
      end
  end.

End Chain.

End Guards.

(* ===================================================================== *)
(** ** Token and user caches: [server/middleware/auth.js]                  *)
(* ===================================================================== *)

Module Caches.
Import Db.

(** An entry of [tokenCache]: [{ user, timestamp }]; a cached [user] may be
    [null]. *)
Record entry : Type := Entry {
  user : option (gmap string jsval);
  timestamp : Z
}.

(** [CACHE_TTL = 5 * 60 * 1000], five minutes in milliseconds. *)
Definition CACHE_TTL : Z := 5 * 60 * 1000.

(** [getCachedTokenValidation]; [now] is [Date.now()], [None] is [null]. *)
Definition getCachedTokenValidation (tokenCache : gmap jsval entry)
           (token : jsval) (now : Z) : option (gmap string jsval) :=
  match tokenCache !! token with
  | Some cached =>
      if now - timestamp cached <? CACHE_TTL then user cached else None
  | None => None
  end.

(** [cleanupTokenCache]: the loop over a snapshot of the entries, deleting
    those older than the time to live. *)
Definition cleanupTokenCache (tokenCache : gmap jsval entry) (now : Z)
  : gmap jsval entry :=
  foldl (fun cache '(token, data) =>
           if CACHE_TTL <? now - timestamp data then delete token cache
           else cache)
        tokenCache (map_to_list tokenCache).

(** [setCachedTokenValidation]; [now] is the clock when the entry is
    stamped, [later] the clock when the cleanup runs. *)
Definition setCachedTokenValidation (tokenCache : gmap jsval entry)
           (token : jsval) (u : option (gmap string jsval)) (now later : Z)
  : gmap jsval entry :=
  let cache := <[token := Entry u now]> tokenCache in
  if (1000 <? Z.of_nat (size cache)) then cleanupTokenCache cache later
  else cache.

(** The delay of the timer that expires an entry of [userCache]. *)
Definition USER_TTL : Z := 10 * 60 * 1000.

(** What a call of [getCachedUser] leaves behind: the value the promise
    resolves to, the cache, and the timers it has set (key and delay). *)
Record cached_lookup : Type := CachedLookup {
  value : option (gmap string jsval);
  cache_after : gmap Z (gmap string jsval);
  timers : list (Z * Z)
}.

(** [getCachedUser]; a throw of the lookup rejects the promise and leaves
    the cache alone. *)
Definition getCachedUser (db : database) (userCache : gmap Z (gmap string jsval))
           (userId : Z) : result cached_lookup :=
  match userCache !! userId with
  | Some u => Ok (CachedLookup (Some u) userCache [])
  | None =>
      found ← getUserById db userId;
      match found with
      | Some u =>
          Ok (CachedLookup (Some u) (<[userId := u]> userCache)
                           [(userId, USER_TTL)])
      | None => Ok (CachedLookup None userCache [])
      end
  end.

(** The timer set by [getCachedUser] fires. *)
Definition expire (userCache : gmap Z (gmap string jsval)) (userId : Z)
  : gmap Z (gmap string jsval) :=
  delete userId userCache.

End Caches.

(* ===================================================================== *)
(** ** Git helpers of the routes: [server/routes/git.js]                   *)
(* ===================================================================== *)

Module Git.

(** The commands [execGitCommand] lets through. *)
Definition allowedCommands : list string :=
  ["status"; "branch"; "add"; "commit"; "push"; "pull"; "diff"; "log";
   "remote"; "checkout"].

(** [arr.includes(v)] on an array of strings. *)
Definition includes (arr : list string) (v : jsval) : bool :=
  existsb (fun a => bool_decide (JStr a = v)) arr.

(** The double quote and the line feed. *)
Definition dquote : ascii := "034"%char.
Definition newline : ascii := "010"%char.

Section Shell.

(** [exec(line, { cwd }, callback)] of [child_process] as the promise built
    around it settles: resolved with the standard output or rejected with
    the error. *)
Variable exec : string -> string -> result string.

(** [execGitCommand] *)
Definition execGitCommand (command cwd : string) : result string :=
  let baseCommand := index (split " " command) 0 in
  if negb (includes allowedCommands baseCommand) then
    Throw (Error "Error" "Git command not allowed")
  else exec ("git " ++ command) cwd.

(** The handler of [POST /git/:projectName/add-multiple]: every name is put
    between double quotes and the names are joined by spaces. *)
Definition add_multiple (files : list string) (projectPath : string)
  : result string :=
  let fileList :=
    String.concat " " (map (fun f => String dquote (f ++ String dquote EmptyString))
                           files) in
  execGitCommand ("add " ++ fileList) projectPath.

End Shell.

(** The lists the status route fills. *)
Record status_lists : Type := StatusLists {
  staged : list string;
  modified : list string;
  untracked : list string
}.

(** [s.includes(c)] for a one-character [c]. *)
Fixpoint contains (c : ascii) (s : string) : bool :=
  match s with
  | EmptyString => false
  | String d rest => Ascii.eqb d c || contains c rest
  end.

(** [s.substring(n)]: [s] without its first [n] characters. *)
Fixpoint substring_from (n : nat) (s : string) : string :=
  match n, s with
  | O, _ => s
  | S n', String _ rest => substring_from n' rest
  | S _, EmptyString => EmptyString
  end.

(** The body of the [forEach] over the lines of [git status --porcelain]. *)
Definition classify (result : status_lists) (line : string) : status_lists :=
  let status := String.substring 0 2 line in
  let filename := substring_from 3 line in
  if contains "A" status || contains "M" status then
    StatusLists (staged result ++ [filename])%list (modified result)
                (untracked result)
  else if contains "M" status || contains "D" status then
    StatusLists (staged result) (modified result ++ [filename])%list
                (untracked result)
  else if String.eqb status "??" then
    StatusLists (staged result) (modified result)
                (untracked result ++ [filename])%list
  else result.

(** [statusOutput.split('\n').forEach(...)] *)
Definition parse_status (result : status_lists) (statusOutput : string)
  : status_lists :=
  fold_left classify (split newline statusOutput) result.

End Git.

(* ===================================================================== *)
(** ** More concrete requests and states for the examples                  *)
(* ===================================================================== *)

Module Samples.
Import Db Auth Guards Caches.

(** An HTTP request with the token of the active user in its header. *)
Definition good : request :=
  Request "/api/auth/user" {["authorization" := "Bearer token-of-1"]} ∅ None.

(** An environment with an API key, and a request that has a wrong key in
    the header and the right one in the query. *)
Definition keyed : gmap string string := {["API_KEY" := "secret-key"]}.

Definition shadowed : request :=
  Request "/api/admin?api_key=secret-key" {["x-api-key" := "wrong-key"]}
          {["api_key" := JStr "secret-key"]} None.

Definition peer_a : peer_request := PeerRequest good (JStr "10.0.0.1") JUndefined.
Definition peer_b : peer_request := PeerRequest good JUndefined (JStr "10.0.0.2").

(** Two clients, one of them in a hurry; the window is one second. *)
Definition burst : list (peer_request * Z) :=
  [(peer_a, 0); (peer_a, 10); (peer_b, 20); (peer_a, 30); (peer_a, 1500)].

(** A history with two admitted requests long ago. *)
Definition quiet : gmap jsval (list Z) := {[JStr "10.0.0.1" := [0; 1]]}.

(** An HTTP request whose bearer token has expired while the other two
    places hold the token of the active user. *)
Definition expired_first : request :=
  Request "/api/auth/user?token=token-of-1"
          (<["authorization" := "Bearer old-token"]>
             {["x-auth-token" := "token-of-1"]})
          {["token" := JStr "token-of-1"]} None.


(** A token cache with one entry stamped at time 0. *)
Definition warm : gmap jsval entry :=
  {[JStr "token-of-1" := Entry (Some (by_id_object Demo.alice)) 0]}.

End Samples.

(* ===================================================================== *)
(** * Properties                                                           *)
(* ===================================================================== *)

Example split_bearer : split " " "Bearer abc.def" = ["Bearer"; "abc.def"].
Proof. reflexivity. Qed.

Example split_no_space : index (split " " "Bearer") 1 = JUndefined.
Proof. reflexivity. Qed.

Example split_trailing_space : index (split " " "Bearer ") 1 = JStr EmptyString.
Proof. reflexivity. Qed.

Example active_user_found :
  Db.getUserById Demo.db 1 = Ok (Some (Db.by_id_object Demo.alice)).
Proof. reflexivity. Qed.

Example lookup_on_fresh_database_throws :
  Db.getUserById Db.fresh 1 = Throw Db.no_such_table.
Proof. reflexivity. Qed.

Example demo_has_users : Db.hasUsers Demo.db = Ok true.
Proof. reflexivity. Qed.

Example empty_table_has_no_users : Db.hasUsers (Db.Database (Ok [])) = Ok false.
Proof. reflexivity. Qed.

Example malformed_bearer_answers_401 :
  Auth.authenticateToken Demo.verify Demo.db Demo.three
  = Ok (Auth.Respond 401 "Invalid token format").
Proof. reflexivity. Qed.

Example x_auth_token_is_second :
  Auth.authenticateToken_token
    (Auth.Request "/api/auth/user"
       (<["authorization" := "Bearer"]> {["x-auth-token" := "token-of-1"]})
       {["token" := JStr "token-of-2"]} None)
  = JStr "token-of-1".
Proof. reflexivity. Qed.

Example upgrade_with_valid_token_opens :
  exists c,
    Gateway.handleUpgrade Demo.plain_searchParams Demo.verify Demo.db
      (Gateway.Server []) Demo.both
    = Ok (Gateway.Server [c], Gateway.Opened c) /\
    Gateway.principal c
    = Some (Auth.principal_object (JNum 1) (JStr "alice")).
Proof. eexists. split; reflexivity. Qed.

Section DbFacts.
Import Db.

Lemma getAsObject_by_id (r : user_row) (rest : list (list sqlval)) :
  getAsObject
    (Statement ["id"; "username"; "created_at"; "last_login"]
       ([SqlInt (id r); SqlText (username r); created_at r; last_login r]
          :: rest)) = by_id_object r.
Proof. reflexivity. Qed.

Lemma getAsObject_by_username (r : user_row) (rest : list (list sqlval)) :
  getAsObject
    (Statement ["id"; "username"; "password_hash"; "created_at";
                "last_login"; "is_active"]
       ([SqlInt (id r); SqlText (username r); SqlText (password_hash r);
         created_at r; last_login r; is_active r] :: rest))
  = by_username_object r.
Proof. reflexivity. Qed.

Lemma field_id_by_id (r : user_row) : field (by_id_object r) "id" = JNum (id r).
Proof. unfold field, by_id_object. cbn. now rewrite lookup_insert_eq. Qed.

Lemma field_username_by_id (r : user_row) :
  field (by_id_object r) "username" = JStr (username r).
Proof.
  unfold field, by_id_object. cbn.
  rewrite lookup_insert_ne by discriminate. now rewrite lookup_insert_eq.
Qed.

Lemma field_id_by_username (r : user_row) :
  field (by_username_object r) "id" = JNum (id r).
Proof. unfold field, by_username_object. cbn. now rewrite lookup_insert_eq. Qed.

Lemma head_of_filter {A} (f : A -> bool) (l : list A) (x : A) (rest : list A) :
  List.filter f l = x :: rest -> In x l /\ f x = true.
Proof.
  intros Hf. apply filter_In. rewrite Hf. now left.
Qed.

Lemma filter_nil_of_all_false {A} (f : A -> bool) (l : list A) :
  (forall x, In x l -> f x = false) -> List.filter f l = [].
Proof.
  induction l as [|a l IH]; intros Hall; [reflexivity|].
  cbn. rewrite (Hall a (or_introl eq_refl)). apply IH.
  intros x Hx. apply Hall. now right.
Qed.

Lemma active_iff (r : user_row) : active r = true <-> is_active r = SqlInt 1.
Proof.
  unfold active. destruct (is_active r) as [|n|t]; split; intros H;
    try discriminate.
  - apply Z.eqb_eq in H. now subst.
  - injection H as ->. reflexivity.
Qed.

(** What [getUserById] computes: the first active row under the key
    decides, and a row whose key is the falsy number [0] reads as absent. *)
Lemma getUserById_unfold (db : database) (uid : Z) :
  getUserById db uid =
  match users db with
  | Throw e => Throw e
  | Ok table =>
      match List.filter (fun r => (id r =? uid) && active r) table with
      | [] => Ok None
      | r :: _ => Ok (if id r =? 0 then None else Some (by_id_object r))
      end
  end.
Proof.
  unfold getUserById, prepare_by_id.
  destruct (users db) as [table|e]; [|reflexivity].
  cbn [try_catch mbind result_bind bind].
  destruct (List.filter _ table) as [|r rest]; [reflexivity|].
  cbn [map]. rewrite getAsObject_by_id, field_id_by_id. cbn [truthy].
  destruct (id r =? 0); reflexivity.
Qed.

Lemma getUserByUsername_unfold (db : database) (name : string) :
  getUserByUsername db name =
  match users db with
  | Throw e => Throw e
  | Ok table =>
      match List.filter (fun r => String.eqb (username r) name && active r)
                        table with
      | [] => Ok None
      | r :: _ => Ok (if id r =? 0 then None else Some (by_username_object r))
      end
  end.
Proof.
  unfold getUserByUsername, prepare_by_username.
  destruct (users db) as [table|e]; [|reflexivity].
  cbn [try_catch mbind result_bind bind].
  destruct (List.filter _ table) as [|r rest]; [reflexivity|].
  cbn [map]. rewrite getAsObject_by_username, field_id_by_username.
  cbn [truthy]. destruct (id r =? 0); reflexivity.
Qed.

End DbFacts.

Section UserLookups.
Import Db Auth.

(** C9. On a database whose [users] table does not exist yet, and on any
    other error the engine raises for the query, [hasUsers] returns
    [false]; it never throws, and otherwise tells whether the table holds
    a row. *)
Theorem hasUsers_never_throws :
  hasUsers fresh = Ok false /\
  (forall e, hasUsers (Database (Throw e)) = Ok false) /\
  (forall table, hasUsers (Database (Ok table)) = Ok (0 <? Z.of_nat (length table))) /\
  (forall db, returns (hasUsers db)).
Proof.
  assert (Herr : forall e, hasUsers (Database (Throw e)) = Ok false)
    by reflexivity.
  assert (Hok : forall table,
             hasUsers (Database (Ok table)) = Ok (0 <? Z.of_nat (length table)))
    by reflexivity.
  repeat split; try assumption; try reflexivity.
  intros [[table|e]]; [rewrite Hok | rewrite Herr]; eexists; reflexivity.
Qed.

Lemma getUserById_sound (db : database) (uid : Z) (u : gmap string jsval) :
  getUserById db uid = Ok (Some u) ->
  exists table r, users db = Ok table /\ In r table /\ id r = uid /\
                  is_active r = SqlInt 1 /\ u = by_id_object r.
Proof.
  rewrite getUserById_unfold. destruct (users db) as [table|e]; [|discriminate].
  destruct (List.filter _ table) as [|r rest] eqn:Hf; [discriminate|].
  apply head_of_filter in Hf as [Hin Hr].
  apply andb_true_iff in Hr as [Hid Hact].
  apply Z.eqb_eq in Hid. apply active_iff in Hact.
  destruct (id r =? 0); [discriminate|].
  intros [= <-]. exists table, r. auto.
Qed.

Lemma getUserByUsername_sound (db : database) (name : string)
      (u : gmap string jsval) :
  getUserByUsername db name = Ok (Some u) ->
  exists table r, users db = Ok table /\ In r table /\ username r = name /\
                  is_active r = SqlInt 1 /\ u = by_username_object r.
Proof.
  rewrite getUserByUsername_unfold.
  destruct (users db) as [table|e]; [|discriminate].
  destruct (List.filter _ table) as [|r rest] eqn:Hf; [discriminate|].
  apply head_of_filter in Hf as [Hin Hr].
  apply andb_true_iff in Hr as [Hname Hact].
  apply String.eqb_eq in Hname. apply active_iff in Hact.
  destruct (id r =? 0); [discriminate|].
  intros [= <-]. exists table, r. auto.
Qed.

Lemma getUserById_deactivated (table : list user_row) (uid : Z) :
  deactivated_id table uid -> getUserById (Database (Ok table)) uid = Ok None.
Proof.
  intros Hoff. rewrite getUserById_unfold. cbn [users].
  rewrite filter_nil_of_all_false; [reflexivity|].
  intros r Hin. apply andb_false_iff.
  destruct (Z.eqb_spec (id r) uid) as [Hid|]; [right | now left].
  apply not_true_is_false. rewrite active_iff. now apply Hoff.
Qed.

Lemma getUserByUsername_deactivated (table : list user_row) (name : string) :
  deactivated_name table name ->
  getUserByUsername (Database (Ok table)) name = Ok None.
Proof.
  intros Hoff. rewrite getUserByUsername_unfold. cbn [users].
  rewrite filter_nil_of_all_false; [reflexivity|].
  intros r Hin. apply andb_false_iff.
  destruct (String.eqb_spec (username r) name) as [Hid|]; [right | now left].
  apply not_true_is_false. rewrite active_iff. now apply Hoff.
Qed.

End UserLookups.

Section Verifier.
Import Db Auth.
Variable jwt_verify : jsval -> result jwt_payload.
Variable db : database.

(** The two ways [authenticateWebSocket] can end. *)
Lemma authenticateWebSocket_cases (token : jsval) :
  authenticateWebSocket jwt_verify db token = Ok None \/
  exists payload table r,
    truthy token = true /\ jwt_verify token = Ok payload /\
    users db = Ok table /\ In r table /\ id r = userId payload /\
    is_active r = SqlInt 1 /\
    authenticateWebSocket jwt_verify db token =
      Ok (Some (principal_object (JNum (id r)) (JStr (username r)))).
Proof.
  unfold authenticateWebSocket.
  destruct (truthy token) eqn:Htok; [|now left]. cbn [negb].
  destruct (jwt_verify token) as [payload|e] eqn:Hjwt; [|now left].
  cbn [mbind result_bind bind].
  destruct (getUserById db (userId payload)) as [[u|]|e] eqn:Hu;
    [|now left|now left].
  apply getUserById_sound in Hu as (table & r & Ht & Hin & Hid & Hact & ->).
  right. exists payload, table, r.
  cbn [mbind result_bind bind try_catch].
  rewrite field_id_by_id, field_username_by_id. auto 10.
Qed.

(** A token of a deactivated user is refused on both paths. *)
Lemma deactivated_token_refused (token : jsval) (payload : jwt_payload)
      (table : list user_row) :
  users db = Ok table ->
  truthy token = true ->
  jwt_verify token = Ok payload ->
  deactivated_id table (userId payload) ->
  authenticateWebSocket jwt_verify db token = Ok None /\
  forall req, authenticateToken_token req = token ->
    authenticateToken jwt_verify db req =
      Ok (Respond 401 "Invalid token: user not found").
Proof.
  intros Ht Htok Hjwt Hoff.
  assert (Hnone : getUserById db (userId payload) = Ok None).
  { destruct db as [u]. cbn in Ht. subst u.
    now apply getUserById_deactivated. }
  split.
  - unfold authenticateWebSocket. rewrite Htok, Hjwt. cbn.
    now rewrite Hnone.
  - intros req <-. unfold authenticateToken. rewrite Htok, Hjwt. cbn.
    now rewrite Hnone.
Qed.

End Verifier.

(** C5. Whatever the credential, [authenticateWebSocket] returns normally:
    either [null], or the principal [{ id, username }] of an active row whose
    key is the one the verified token names. It never throws. *)
Theorem authenticateWebSocket_principal_or_null
        (jwt_verify : jsval -> result Auth.jwt_payload) (db : Db.database)
        (token : jsval) :
  returns (Auth.authenticateWebSocket jwt_verify db token) /\
  (Auth.authenticateWebSocket jwt_verify db token = Ok None \/
   exists i n, Auth.authenticateWebSocket jwt_verify db token =
                 Ok (Some (Auth.principal_object (JNum i) (JStr n)))).
Proof.
  destruct (authenticateWebSocket_cases jwt_verify db token)
    as [H | (payload & table & r & _ & _ & _ & _ & _ & _ & H)];
    rewrite H; (split; [eexists; reflexivity|]); [now left|].
  right. eauto.
Qed.

(** C8. [getUserById] and [getUserByUsername] return a user object only for
    a row that exists under the key and has [is_active = 1]; when every row
    under the key is deactivated they return [null], and a token that still
    verifies for such a user is refused by both authentication paths. *)
Theorem lookups_only_active_users (db : Db.database) :
  (forall uid u, Db.getUserById db uid = Ok (Some u) ->
     exists table r, Db.users db = Ok table /\ In r table /\ Db.id r = uid /\
                     Db.is_active r = Db.SqlInt 1 /\ u = Db.by_id_object r) /\
  (forall name u, Db.getUserByUsername db name = Ok (Some u) ->
     exists table r, Db.users db = Ok table /\ In r table /\
                     Db.username r = name /\
                     Db.is_active r = Db.SqlInt 1 /\
                     u = Db.by_username_object r) /\
  (forall table uid, Db.users db = Ok table -> Db.deactivated_id table uid ->
     Db.getUserById db uid = Ok None) /\
  (forall table name, Db.users db = Ok table ->
     Db.deactivated_name table name ->
     Db.getUserByUsername db name = Ok None) /\
  (forall jwt_verify token payload table,
     Db.users db = Ok table -> truthy token = true ->
     jwt_verify token = Ok payload ->
     Db.deactivated_id table (Auth.userId payload) ->
     Auth.authenticateWebSocket jwt_verify db token = Ok None /\
     forall req, Auth.authenticateToken_token req = token ->
       Auth.authenticateToken jwt_verify db req =
         Ok (Auth.Respond 401 "Invalid token: user not found")).
Proof.
  split; [exact (getUserById_sound db)|].
  split; [exact (getUserByUsername_sound db)|].
  split; [|split].
  - intros table uid Ht. destruct db as [u]. cbn in Ht. subst u.
    apply getUserById_deactivated.
  - intros table name Ht. destruct db as [u]. cbn in Ht. subst u.
    apply getUserByUsername_deactivated.
  - intros jwt_verify token payload table.
    apply deactivated_token_refused.
Qed.

Lemma bob_is_deactivated : Db.deactivated_id Demo.table 2.
Proof.
  intros r [<-|[<-|[]]]; cbn; intros; [lia | discriminate].
Qed.

(** The deactivated user of the example database: both lookups answer
    [null], and the token issued to that user is refused. *)
Lemma lookups_only_active_users_witness :
  Db.getUserById Demo.db 2 = Ok None /\
  Auth.authenticateWebSocket Demo.verify Demo.db (JStr "token-of-2") = Ok None.
Proof.
  destruct (lookups_only_active_users Demo.db) as (_ & _ & Hid & _ & Htok).
  split.
  - apply (Hid Demo.table 2); [reflexivity | exact bob_is_deactivated].
  - apply (Htok Demo.verify (JStr "token-of-2") (Auth.Payload 2 "bob") Demo.table);
      [reflexivity | reflexivity | reflexivity | exact bob_is_deactivated].
Defined.

Section TokenSources.
Import Auth.

Lemma js_or_truthy (a b : jsval) : truthy a = true -> js_or a b = a.
Proof. unfold js_or. now intros ->. Qed.

Lemma js_or_falsy (a b : jsval) : truthy a = false -> js_or a b = b.
Proof. unfold js_or. now intros ->. Qed.

Lemma truthy_JStr (q : string) : q <> EmptyString -> truthy (JStr q) = true.
Proof.
  intros Hq. cbn. destruct (String.eqb_spec q EmptyString); [contradiction|reflexivity].
Qed.

Lemma extractWebSocketToken_unfold URL_searchParams req params :
  URL_searchParams (url req) = Ok params ->
  extractWebSocketToken URL_searchParams req =
    Ok (js_or (searchParams_get params "token") (header_token req)).
Proof. unfold extractWebSocketToken. now intros ->. Qed.

End TokenSources.

(** C1, as the specification states it, fails: on an upgrade request with
    one token in the query and another in the authorization header,
    [extractWebSocketToken] returns the token of the query, not the one of
    the header, and the connection is authenticated as the user of the
    query token. *)
Lemma header_precedence_refuted :
  Auth.searchParams_get [("token", "token-of-1")] "token" = JStr "token-of-1" /\
  Demo.plain_searchParams (Auth.url Demo.both) = Ok [("token", "token-of-1")] /\
  Auth.header_token Demo.both = JStr "token-of-2" /\
  Auth.extractWebSocketToken Demo.plain_searchParams Demo.both
    = Ok (JStr "token-of-1") /\
  Auth.extractWebSocketToken Demo.plain_searchParams Demo.both
    <> Ok (Auth.header_token Demo.both) /\
  Auth.verifyClient Demo.plain_searchParams Demo.verify Demo.db Demo.both
    = Ok (true, Auth.set_user Demo.both
                  (Auth.principal_object (JNum 1) (JStr "alice"))).
Proof.
  repeat split; try reflexivity. discriminate.
Qed.

(** C1, amended. On the upgrade path the query parameter wins: a non-empty
    [token] parameter is the credential whatever the authorization header
    holds, and the header's token is used only when the parameter is absent
    or empty. *)
Theorem query_token_takes_precedence
        (URL_searchParams : string -> result (list (string * string)))
        (req : Auth.request) (params : list (string * string)) :
  URL_searchParams (Auth.url req) = Ok params ->
  (forall q, Auth.searchParams_get params "token" = JStr q ->
             q <> EmptyString ->
             Auth.extractWebSocketToken URL_searchParams req = Ok (JStr q)) /\
  (truthy (Auth.searchParams_get params "token") = false ->
   Auth.extractWebSocketToken URL_searchParams req
     = Ok (Auth.header_token req)).
Proof.
  intros Hurl. rewrite (extractWebSocketToken_unfold _ _ _ Hurl). split.
  - intros q -> Hq. now rewrite js_or_truthy by now apply truthy_JStr.
  - intros Hfalsy. now rewrite js_or_falsy.
Qed.

Lemma query_token_takes_precedence_witness :
  Auth.extractWebSocketToken Demo.plain_searchParams Demo.both
    = Ok (JStr "token-of-1").
Proof.
  destruct (query_token_takes_precedence Demo.plain_searchParams Demo.both
              [("token", "token-of-1")] eq_refl) as [Hquery _].
  apply Hquery; [reflexivity | discriminate].
Defined.

(** The token expression of [authenticateToken] picks the first truthy of
    its three sources, in their order. *)
Lemma token_expression_precedence (req : Auth.request) :
  (truthy (Auth.header_token req) = true ->
   Auth.authenticateToken_token req = Auth.header_token req) /\
  (truthy (Auth.header_token req) = false ->
   truthy (prop (Auth.headers req) "x-auth-token") = true ->
   Auth.authenticateToken_token req = prop (Auth.headers req) "x-auth-token") /\
  (truthy (Auth.header_token req) = false ->
   truthy (prop (Auth.headers req) "x-auth-token") = false ->
   Auth.authenticateToken_token req = Db.field (Auth.query req) "token").
Proof.
  unfold Auth.authenticateToken_token. fold (Auth.header_token req).
  repeat split.
  - intros Hb. now rewrite (js_or_truthy (js_or _ _)); rewrite js_or_truthy.
  - intros Hb Hx. rewrite (js_or_falsy (Auth.header_token req)) by assumption.
    now rewrite js_or_truthy.
  - intros Hb Hx. rewrite (js_or_falsy (Auth.header_token req)) by assumption.
    now rewrite js_or_falsy.
Qed.

(** What [authenticateToken] answers once its token expression has a
    value: nothing to verify, or the outcome of verifying that value and
    looking its user up. *)
Lemma authenticateToken_by_token
      (jwt_verify : jsval -> result Auth.jwt_payload) (db : Db.database)
      (req : Auth.request) :
  Auth.authenticateToken jwt_verify db req =
  if truthy (Auth.authenticateToken_token req) then
    match jwt_verify (Auth.authenticateToken_token req) with
    | Throw e => Ok (Auth.authenticateToken_catch e)
    | Ok decoded =>
        match Db.getUserById db (Auth.userId decoded) with
        | Ok (Some u) => Ok (Auth.Next (Auth.set_user req u))
        | Ok None => Ok (Auth.Respond 401 "Invalid token: user not found")
        | Throw e => Ok (Auth.authenticateToken_catch e)
        end
    end
  else Ok (Auth.Respond 401 "Access token required").
Proof.
  unfold Auth.authenticateToken. cbn zeta.
  destruct (truthy (Auth.authenticateToken_token req)); [|reflexivity].
  cbn [negb].
  destruct (jwt_verify (Auth.authenticateToken_token req)) as [decoded|e];
    [|reflexivity].
  cbn [mbind result_bind bind].
  now destruct (Db.getUserById db (Auth.userId decoded)) as [[u|]|e].
Qed.

(** C10. [authenticateToken] takes its credential from the authorization
    header first, then from the [x-auth-token] header, then from the
    [token] query parameter: what it answers is the outcome of verifying
    the first of the three that is present (and looking up the user that
    one names), whatever the sources after it hold, and "Access token
    required" when none is present. On the upgrade path the order is the
    other way round, the query parameter being taken before the
    authorization header. *)
Theorem http_token_precedence
        (jwt_verify : jsval -> result Auth.jwt_payload) (db : Db.database)
        (req : Auth.request) :
  let outcome_of := fun token =>
    match jwt_verify token with
    | Throw e => Ok (Auth.authenticateToken_catch e)
    | Ok decoded =>
        match Db.getUserById db (Auth.userId decoded) with
        | Ok (Some u) => Ok (Auth.Next (Auth.set_user req u))
        | Ok None => Ok (Auth.Respond 401 "Invalid token: user not found")
        | Throw e => Ok (Auth.authenticateToken_catch e)
        end
    end in
  let bearer := Auth.header_token req in
  let x_auth := prop (Auth.headers req) "x-auth-token" in
  let in_query := Db.field (Auth.query req) "token" in
  (truthy bearer = true ->
   Auth.authenticateToken_token req = bearer /\
   Auth.authenticateToken jwt_verify db req = outcome_of bearer) /\
  (truthy bearer = false -> truthy x_auth = true ->
   Auth.authenticateToken_token req = x_auth /\
   Auth.authenticateToken jwt_verify db req = outcome_of x_auth) /\
  (truthy bearer = false -> truthy x_auth = false ->
   Auth.authenticateToken_token req = in_query /\
   (truthy in_query = true ->
    Auth.authenticateToken jwt_verify db req = outcome_of in_query) /\
   (truthy in_query = false ->
    Auth.authenticateToken jwt_verify db req
    = Ok (Auth.Respond 401 "Access token required"))) /\
  (forall URL_searchParams params,
     URL_searchParams (Auth.url req) = Ok params ->
     truthy (Auth.searchParams_get params "token") = true ->
     Auth.extractWebSocketToken URL_searchParams req
       = Ok (Auth.searchParams_get params "token") /\
     Auth.verifyClient URL_searchParams jwt_verify db req
       = (user ← Auth.authenticateWebSocket jwt_verify db
                   (Auth.searchParams_get params "token");
          match user with
          | None => Ok (false, req)
          | Some u => Ok (true, Auth.set_user req u)
          end)).
Proof.
  cbn zeta.
  destruct (token_expression_precedence req) as (Hb & Hx & Hq).
  pose proof (authenticateToken_by_token jwt_verify db req) as Hauth.
  split; [|split; [|split]].
  - intros Ht. split; [now apply Hb|]. rewrite Hauth, (Hb Ht). now rewrite Ht.
  - intros Hnb Ht. split; [now apply Hx|].
    rewrite Hauth, (Hx Hnb Ht). now rewrite Ht.
  - intros Hnb Hnx. split; [now apply Hq|].
    rewrite Hauth, (Hq Hnb Hnx). split; intros Ht; now rewrite Ht.
  - intros URL_searchParams params Hurl Hq'.
    assert (Hext : Auth.extractWebSocketToken URL_searchParams req
                   = Ok (Auth.searchParams_get params "token")).
    { rewrite (extractWebSocketToken_unfold _ _ _ Hurl).
      now rewrite js_or_truthy. }
    split; [exact Hext|]. unfold Auth.verifyClient. now rewrite Hext.
Qed.

Lemma http_token_precedence_witness :
  Auth.authenticateToken Demo.verify Demo.db Samples.expired_first
  = Ok (Auth.Respond 401 "Token expired") /\
  Auth.extractWebSocketToken Demo.plain_searchParams Demo.three
    = Ok (JStr "in-query").
Proof.
  split.
  - destruct (http_token_precedence Demo.verify Demo.db Samples.expired_first)
      as (Hbearer & _).
    destruct (Hbearer eq_refl) as [_ Hanswer]. exact Hanswer.
  - destruct (http_token_precedence Demo.verify Demo.db Demo.three)
      as (_ & _ & _ & Hws).
    apply (Hws Demo.plain_searchParams [("token", "in-query")]); reflexivity.
Defined.

Section Handshake.
Import Db Auth Gateway.
Variable URL_searchParams : string -> result (list (string * string)).
Variable jwt_verify : jsval -> result jwt_payload.
Variable db : database.

(** A channel is opened only for a principal the verifier returned, and it
    carries that principal. *)
Lemma handleUpgrade_opened (srv srv' : server) (req : request) (c : connection) :
  handleUpgrade URL_searchParams jwt_verify db srv req = Ok (srv', Opened c) ->
  exists token p,
    extractWebSocketToken URL_searchParams req = Ok token /\
    authenticateWebSocket jwt_verify db token = Ok (Some p) /\
    principal c = Some p /\ srv' = Server (c :: clients srv).
Proof.
  unfold handleUpgrade, verifyClient.
  destruct (extractWebSocketToken URL_searchParams req) as [token|e];
    [|discriminate].
  cbn [mbind result_bind bind].
  destruct (authenticateWebSocket jwt_verify db token) as [[p|]|e] eqn:Hauth;
    cbn; [|discriminate|discriminate].
  intros [= <- <-]. exists token, p. repeat split; [exact Hauth].
Qed.

End Handshake.

(** C2. When the verifier rejects the credential of an upgrade request,
    [verifyClient] answers [false] without touching the request and the
    handshake ends with status 401: the server's set of open channels is
    what it was and no connection object is made. *)
Theorem rejected_credential_opens_nothing
        (URL_searchParams : string -> result (list (string * string)))
        (jwt_verify : jsval -> result Auth.jwt_payload) (db : Db.database)
        (srv : Gateway.server) (req : Auth.request) (token : jsval) :
  Auth.extractWebSocketToken URL_searchParams req = Ok token ->
  Auth.authenticateWebSocket jwt_verify db token = Ok None ->
  Auth.verifyClient URL_searchParams jwt_verify db req = Ok (false, req) /\
  Gateway.handleUpgrade URL_searchParams jwt_verify db srv req
    = Ok (srv, Gateway.Rejected 401) /\
  (forall srv' c,
     Gateway.handleUpgrade URL_searchParams jwt_verify db srv req
       <> Ok (srv', Gateway.Opened c)).
Proof.
  intros Htok Hrej.
  assert (Hv : Auth.verifyClient URL_searchParams jwt_verify db req
               = Ok (false, req)).
  { unfold Auth.verifyClient. rewrite Htok. cbn. now rewrite Hrej. }
  assert (Hup : Gateway.handleUpgrade URL_searchParams jwt_verify db srv req
                = Ok (srv, Gateway.Rejected 401)).
  { unfold Gateway.handleUpgrade. now rewrite Hv. }
  repeat split; try assumption.
  intros srv' c. rewrite Hup. discriminate.
Qed.

Lemma rejected_credential_opens_nothing_witness :
  Gateway.handleUpgrade Demo.plain_searchParams Demo.verify Demo.db
    (Gateway.Server []) Demo.stale
  = Ok (Gateway.Server [], Gateway.Rejected 401).
Proof.
  apply (rejected_credential_opens_nothing Demo.plain_searchParams Demo.verify
           Demo.db (Gateway.Server []) Demo.stale (JStr "old-token"));
    reflexivity.
Defined.

Section LifecycleFacts.
Import Lifecycle.

Lemma state_apply (s : Session) (e : event) :
  state (apply s e) = default (state s) (transition (state s) e).
Proof. unfold apply. now destruct (transition (state s) e). Qed.

(** Every edge leads to the next state of the chain, except the edge of a
    failed spawn. *)
Lemma transition_edge (a b : SessionState) (e : event) :
  transition a e = Some b ->
  b = succ a /\ rank b = S (rank a) \/
  a = spawning /\ b = terminated /\ exists d, e = spawn_failure d.
Proof.
  destruct a, e; cbn; intros [= <-]; eauto.
Qed.

Lemma rank_apply (s : Session) (e : event) :
  (rank (state s) <= rank (state (apply s e)))%nat.
Proof.
  rewrite state_apply. destruct (transition (state s) e) as [b|] eqn:Ht; cbn;
    [|lia].
  apply transition_edge in Ht as [[_ ->]|(-> & -> & _)]; cbn; lia.
Qed.

Lemma observed_from (s : Session) (es : list event) (j : nat) (b : SessionState) :
  observed s es !! j = Some b -> (rank (state s) <= rank b)%nat.
Proof.
  revert s j. induction es as [|e es IH]; intros s [|j]; cbn;
    try (intros [= <-]; lia); try discriminate.
  intros Hj. apply IH in Hj. pose proof (rank_apply s e). lia.
Qed.

Lemma observed_monotone (s : Session) (es : list event) (i j : nat)
      (a b : SessionState) :
  (i <= j)%nat -> observed s es !! i = Some a -> observed s es !! j = Some b ->
  (rank a <= rank b)%nat.
Proof.
  revert s es j. induction i as [|i IH]; intros s es j Hij Ha Hb.
  - destruct es; cbn in Ha; injection Ha as <-; now apply observed_from in Hb.
  - destruct j as [|j]; [lia|].
    destruct es as [|e es]; [discriminate|]. cbn in Ha, Hb.
    apply (IH (apply s e) es j); [lia|assumption..].
Qed.

Lemma observed_step (s : Session) (es : list event) (i : nat)
      (a b : SessionState) :
  observed s es !! i = Some a -> observed s es !! S i = Some b ->
  b = a \/ b = succ a \/
  a = spawning /\ b = terminated /\ exists d, es !! i = Some (spawn_failure d).
Proof.
  revert s es. induction i as [|i IH]; intros s es Ha Hb.
  - destruct es as [|e es]; [discriminate|]. cbn in Ha, Hb.
    injection Ha as <-.
    assert (Hb' : state (apply s e) = b) by (destruct es; now injection Hb).
    rewrite state_apply in Hb'.
    destruct (transition (state s) e) as [c|] eqn:Ht; cbn in Hb'; subst;
      [|now left].
    right. apply transition_edge in Ht as [[-> _]|(Hs & -> & d & ->)];
      [now left|right; eauto].
  - destruct es as [|e es]; [discriminate|]. cbn in Ha, Hb.
    apply (IH (apply s e) es); assumption.
Qed.

(** A whole run ends no earlier in the chain than it started. *)
Lemma run_forward (s : Session) (es : list event) :
  (rank (state s) <= rank (state (run s es)))%nat.
Proof.
  revert s. induction es as [|e es IH]; intros s; cbn; [lia|].
  pose proof (rank_apply s e). specialize (IH (apply s e)).
  unfold run in IH. lia.
Qed.

(** Once terminated, a session stays terminated. *)
Lemma terminated_is_final (s : Session) (es : list event) :
  state s = terminated -> state (run s es) = terminated.
Proof.
  intros Hs. pose proof (run_forward s es) as Hr. rewrite Hs in Hr.
  destruct (state (run s es)); cbn in Hr; [lia..|reflexivity].
Qed.

End LifecycleFacts.

(** C3. Whatever lifecycle operations reach a session, in whatever order,
    the states it is observed in never go back along spawning, running,
    draining, terminated, and each observation either repeats the state
    before it, or is the next state of the chain, or is [terminated] reached
    from [spawning] by the failed spawn. Settled on the state graph as the
    specification gives it. *)
Theorem session_state_moves_forward (s : Lifecycle.Session)
        (es : list Lifecycle.event) :
  (forall i j a b, (i <= j)%nat ->
     Lifecycle.observed s es !! i = Some a ->
     Lifecycle.observed s es !! j = Some b ->
     (Lifecycle.rank a <= Lifecycle.rank b)%nat) /\
  (forall i a b,
     Lifecycle.observed s es !! i = Some a ->
     Lifecycle.observed s es !! S i = Some b ->
     b = a \/ b = Lifecycle.succ a \/
     a = Lifecycle.spawning /\ b = Lifecycle.terminated /\
     exists d, es !! i = Some (Lifecycle.spawn_failure d)).
Proof.
  split.
  - intros i j a b. apply observed_monotone.
  - intros i a b. apply observed_step.
Qed.

Example history_observed :
  Lifecycle.observed Demo.session0 Demo.history =
  [Lifecycle.spawning; Lifecycle.running; Lifecycle.draining;
   Lifecycle.draining; Lifecycle.terminated; Lifecycle.terminated].
Proof. reflexivity. Qed.

Lemma session_state_moves_forward_witness :
  (Lifecycle.rank Lifecycle.running <= Lifecycle.rank Lifecycle.terminated)%nat.
Proof.
  destruct (session_state_moves_forward Demo.session0 Demo.history)
    as [Hmono _].
  apply (Hmono 1%nat 4%nat); [lia | reflexivity | reflexivity].
Defined.

(** C4. When the spawn fails, [Create] returns a session instead of
    throwing: the session is [terminated], reached from [spawning] in one
    step, it holds no process handle and carries the captured diagnostics;
    and the failed spawn is the only edge of the graph that passes over
    [draining]. Settled on [Create] as the specification gives it. *)
Theorem failed_spawn_is_terminal
        (spawn : Lifecycle.SessionKind -> string -> option string ->
                 Lifecycle.spawned)
        (prior : string -> bool) (fresh_id : string) (now : Z)
        (k : Lifecycle.SessionKind) (path : string)
        (resumeId : option string) (d : Lifecycle.diagnostics) :
  spawn k path (Lifecycle.resume_argument prior resumeId)
    = Lifecycle.spawn_error d ->
  (exists s,
     Lifecycle.Create spawn prior fresh_id now k path resumeId = Ok s /\
     Lifecycle.state s = Lifecycle.terminated /\
     Lifecycle.ended s = Some (Lifecycle.spawn_failed d) /\
     Lifecycle.processHandle s = None /\
     Lifecycle.observed
       (Lifecycle.fresh_session (default fresh_id resumeId) now k path)
       [Lifecycle.spawn_failure d]
     = [Lifecycle.spawning; Lifecycle.terminated]) /\
  (forall a e b, Lifecycle.transition a e = Some b ->
     Lifecycle.rank b <> S (Lifecycle.rank a) ->
     a = Lifecycle.spawning /\ b = Lifecycle.terminated /\
     exists d', e = Lifecycle.spawn_failure d').
Proof.
  intros Hspawn. split.
  - unfold Lifecycle.Create. rewrite Hspawn. eexists. split; [reflexivity|].
    repeat split.
  - intros a e b Ht Hskip.
    apply transition_edge in Ht as [[_ Hr]|Hfail]; [contradiction|exact Hfail].
Qed.

Lemma failed_spawn_is_terminal_witness :
  exists s,
    Lifecycle.Create Demo.no_binary (fun _ => false) "s-2" 10
                     Lifecycle.conversation "/tmp/p1" None = Ok s /\
    Lifecycle.state s = Lifecycle.terminated /\
    Lifecycle.ended s
      = Some (Lifecycle.spawn_failed (Lifecycle.binary_missing "claude")).
Proof.
  destruct (failed_spawn_is_terminal Demo.no_binary (fun _ => false) "s-2" 10
              Lifecycle.conversation "/tmp/p1" None
              (Lifecycle.binary_missing "claude") eq_refl)
    as [(s & Hs & Hst & Hend & _) _].
  exists s. auto.
Defined.

Section BridgeFacts.
Import Lifecycle.
Variable idle_threshold : Z.
Variable buffer_cap : nat.

Lemma state_touch now s : state (touch now s) = state s.
Proof. unfold touch. destruct (state s) eqn:Hst; cbn; congruence. Qed.

(** Altering a session by a function that keeps its state keeps the state
    of every entry. *)
Lemma state_of_alter (f : Session -> Session) (sid sid' : string)
      (m : gmap string Session) (c : gset nat) :
  (forall s, state (f s) = state s) ->
  state_of (mkRegistry (alter f sid m) c) sid' = state <$> m !! sid'.
Proof.
  intros Hf. unfold state_of. cbn. rewrite lookup_alter.
  case_decide as Heq; [subst sid'|reflexivity].
  destruct (m !! sid) as [s|]; cbn; [now rewrite Hf|reflexivity].
Qed.

Lemma pump_end_keeps_states (r : Registry) (sid sid' : string) (conn : nat)
      (why : pump_end) :
  state_of (exec idle_threshold buffer_cap r (PumpEnded sid conn why)) sid'
  = state_of r sid'.
Proof. cbn [exec]. now apply state_of_alter. Qed.

Lemma state_of_release_running (sid sid' : string) (m : gmap string Session) :
  state <$> m !! sid' = Some running ->
  state <$> release sid m !! sid' = Some running.
Proof.
  intros Hrun. unfold release. destruct (m !! sid) as [s|] eqn:Hs; [|exact Hrun].
  destruct (state s) eqn:Hst; try exact Hrun.
  rewrite lookup_delete. case_decide as Heq; [|exact Hrun]. subst sid'.
  rewrite Hs in Hrun. cbn in Hrun. congruence.
Qed.

(** Only [Terminate], the reaper and an observed process exit take a
    session out of [running]. *)
Lemma leaves_running_by (r : Registry) (o : op) (sid : string) :
  state_of r sid = Some running ->
  state_of (exec idle_threshold buffer_cap r o) sid <> Some running ->
  (exists reason, o = Terminate sid reason) \/
  (exists now, o = ReaperTick now) \/
  (exists code, o = ProcessExited sid code).
Proof.
  intros Hrun Hleft. destruct o as [s c|s b n|s c w|s ch|s re|s|s co|n|s c w].
  - exfalso. apply Hleft. cbn [exec]. now rewrite state_of_alter.
  - exfalso. apply Hleft. cbn [exec].
    rewrite state_of_alter; [exact Hrun|apply state_touch].
  - contradiction.
  - exfalso. apply Hleft. cbn [exec]. now rewrite state_of_alter.
  - destruct (decide (s = sid)) as [->|Hne]; [eauto|].
    exfalso. apply Hleft. unfold state_of. cbn.
    now rewrite lookup_alter_ne.
  - exfalso. apply Hleft. unfold state_of. cbn.
    apply state_of_release_running. rewrite lookup_alter.
    case_decide as Heq; [subst s|exact Hrun].
    unfold state_of in Hrun. destruct (sessions r !! sid) as [x|]; [|discriminate].
    cbn in *. injection Hrun as Hx. now rewrite state_apply, Hx.
  - destruct (decide (s = sid)) as [->|Hne]; [eauto|].
    exfalso. apply Hleft. unfold state_of. cbn.
    apply state_of_release_running. now rewrite lookup_alter_ne.
  - eauto.
  - exfalso. apply Hleft. now rewrite pump_end_keeps_states.
Qed.

End BridgeFacts.

(** C7. The end of a pump, by end of stream or by the close of its
    connection, leaves the state of every session as it was; a session that
    is [running] before an operation and not after it was taken out by
    [Terminate], by the reaper or by an observed process exit, never by the
    end of a pump. Settled on the registry operations as the specification
    gives them. *)
Theorem pump_end_never_ends_session (idle_threshold : Z) (buffer_cap : nat)
        (r : Lifecycle.Registry) :
  (forall sid conn why sid',
     Lifecycle.state_of
       (Lifecycle.exec idle_threshold buffer_cap r
          (Lifecycle.PumpEnded sid conn why)) sid'
     = Lifecycle.state_of r sid') /\
  (forall o sid,
     Lifecycle.state_of r sid = Some Lifecycle.running ->
     Lifecycle.state_of (Lifecycle.exec idle_threshold buffer_cap r o) sid
       <> Some Lifecycle.running ->
     (exists reason, o = Lifecycle.Terminate sid reason) \/
     (exists now, o = Lifecycle.ReaperTick now) \/
     (exists code, o = Lifecycle.ProcessExited sid code)).
Proof.
  split.
  - intros sid conn why sid'. apply pump_end_keeps_states.
  - intros o sid. apply leaves_running_by.
Qed.

Lemma pump_end_never_ends_session_witness :
  Lifecycle.state_of
    (Lifecycle.exec 60000 100 Demo.live
       (Lifecycle.PumpEnded "s-1" 5 Lifecycle.connection_close)) "s-1"
  = Some Lifecycle.running.
Proof.
  destruct (pump_end_never_ends_session 60000 100 Demo.live) as [Hkeep _].
  rewrite Hkeep. reflexivity.
Defined.

Section BackoffFacts.
Import Reconnect.
Variable cfg : config.

Lemma on_close_unexpected (c : client) (code : Z) :
  code <> normal_closure ->
  on_close cfg c code =
  if (attempts c <? max_attempts cfg)%nat
  then (mkClient disconnected (S (attempts c)), Some (backoff cfg (attempts c)))
  else (mkClient disconnected (attempts c), None).
Proof.
  intros Hcode. unfold on_close.
  destruct (Z.eqb_spec code normal_closure); [contradiction|reflexivity].
Qed.

(** The [n]-th close of a run of unexpected closes schedules the delay of
    the attempt count reached so far, or nothing once the budget is
    spent. *)
Lemma schedule_lookup (codes : list Z) :
  Forall (fun code => code <> normal_closure) codes ->
  forall (c : client) (n : nat), (n < length codes)%nat ->
    schedule cfg c codes !! n =
    Some (if (attempts c + n <? max_attempts cfg)%nat
          then Some (backoff cfg (attempts c + n))
          else None).
Proof.
  induction 1 as [|code codes Hcode _ IH]; intros c n Hn; cbn in Hn; [lia|].
  cbn [schedule]. rewrite (on_close_unexpected c code Hcode).
  destruct (Nat.ltb_spec (attempts c) (max_attempts cfg)) as [Hlt|Hge];
    rewrite lookup_cons; destruct n as [|n].
  - rewrite Nat.add_0_r, (proj2 (Nat.ltb_lt _ _)) by lia. reflexivity.
  - rewrite IH by lia. cbn [on_timer attempts].
    now rewrite Nat.add_succ_r.
  - rewrite (proj2 (Nat.ltb_ge _ _)) by lia. reflexivity.
  - rewrite IH by lia. cbn [on_timer attempts].
    rewrite !(proj2 (Nat.ltb_ge _ _)) by lia. reflexivity.
Qed.

Lemma backoff_increases (n : nat) :
  (0 < base_delay cfg)%Q -> (backoff cfg n < backoff cfg (S n))%Q.
Proof.
  intros Hbase. unfold backoff. apply Qmult_lt_l; [exact Hbase|].
  rewrite Nat2Z.inj_succ, <- Z.add_1_r.
  rewrite Qpower_plus by discriminate.
  assert (Hp : (0 < (3 # 2) ^ Z.of_nat n)%Q) by (now apply Qpower_0_lt).
  rewrite <- (Qmult_1_r ((3 # 2) ^ Z.of_nat n)) at 1.
  apply Qmult_lt_l; [exact Hp|reflexivity].
Qed.

End BackoffFacts.

(** C6. In a run of unexpected closes, with a positive base delay, the
    reconnect scheduled at the [n]-th close waits base delay × 1.5^n; each
    delay is strictly longer than the one before; and from the close at
    which the maximum attempt count is reached on, no reconnect is
    scheduled. Settled on the close handler as the specification gives
    it. *)
Theorem reconnect_backoff (cfg : Reconnect.config) (codes : list Z) :
  (0 < Reconnect.base_delay cfg)%Q ->
  Forall (fun code => code <> Reconnect.normal_closure) codes ->
  (forall n, (n < length codes)%nat -> (n < Reconnect.max_attempts cfg)%nat ->
     Reconnect.schedule cfg Reconnect.start codes !! n
     = Some (Some (Reconnect.base_delay cfg * (3 # 2) ^ Z.of_nat n)%Q)) /\
  (forall n, (Reconnect.backoff cfg n < Reconnect.backoff cfg (S n))%Q) /\
  (forall n, (n < length codes)%nat -> (Reconnect.max_attempts cfg <= n)%nat ->
     Reconnect.schedule cfg Reconnect.start codes !! n = Some None).
Proof.
  intros Hbase Hcodes. repeat split.
  - intros n Hn Hlt. rewrite (schedule_lookup cfg codes Hcodes) by exact Hn.
    cbn [Reconnect.start Reconnect.attempts Nat.add].
    now rewrite (proj2 (Nat.ltb_lt _ _)) by lia.
  - intros n. now apply backoff_increases.
  - intros n Hn Hge. rewrite (schedule_lookup cfg codes Hcodes) by exact Hn.
    cbn [Reconnect.start Reconnect.attempts Nat.add].
    now rewrite (proj2 (Nat.ltb_ge _ _)) by lia.
Qed.

Example policy_schedule :
  Reconnect.schedule Demo.policy Reconnect.start
                     [1006; 1006; 1006; 1006; 1006; 1006; 1006]
  = [Some (1000 * (3 # 2) ^ 0)%Q; Some (1000 * (3 # 2) ^ 1)%Q;
     Some (1000 * (3 # 2) ^ 2)%Q; Some (1000 * (3 # 2) ^ 3)%Q;
     Some (1000 * (3 # 2) ^ 4)%Q; None; None].
Proof. reflexivity. Qed.

Lemma reconnect_backoff_witness :
  Reconnect.schedule Demo.policy Reconnect.start [1006; 1006; 1006] !! 2%nat
  = Some (Some (1000 * (3 # 2) ^ 2)%Q).
Proof.
  assert (Hcodes : Forall (fun code => code <> Reconnect.normal_closure)
                          [1006; 1006; 1006])
    by (repeat constructor; discriminate).
  destruct (reconnect_backoff Demo.policy [1006; 1006; 1006] eq_refl Hcodes)
    as (Hdelay & _ & _).
  apply (Hdelay 2%nat); cbn; lia.
Defined.

(* ===================================================================== *)
(** * Further properties of the database and the middleware               *)
(* ===================================================================== *)

Section LookupEdges.
Import Db.

Lemma getUserById_found (db : database) (uid : Z) (u : gmap string jsval) :
  getUserById db uid = Ok (Some u) ->
  exists table r, users db = Ok table /\ In r table /\ id r = uid /\
                  uid <> 0 /\ active r = true /\ u = by_id_object r.
Proof.
  rewrite getUserById_unfold. destruct (users db) as [table|e]; [|discriminate].
  destruct (List.filter _ table) as [|r rest] eqn:Hf; [discriminate|].
  apply head_of_filter in Hf as [Hin Hr].
  apply andb_true_iff in Hr as [Hid Hact]. apply Z.eqb_eq in Hid.
  destruct (Z.eqb_spec (id r) 0) as [|Hnz]; [discriminate|].
  intros [= <-]. exists table, r. subst uid. auto 10.
Qed.

Lemma getUserByUsername_found (db : database) (name : string)
      (u : gmap string jsval) :
  getUserByUsername db name = Ok (Some u) ->
  exists table r, users db = Ok table /\ In r table /\ username r = name /\
                  id r <> 0 /\ active r = true /\ u = by_username_object r.
Proof.
  rewrite getUserByUsername_unfold.
  destruct (users db) as [table|e]; [|discriminate].
  destruct (List.filter _ table) as [|r rest] eqn:Hf; [discriminate|].
  apply head_of_filter in Hf as [Hin Hr].
  apply andb_true_iff in Hr as [Hname Hact]. apply String.eqb_eq in Hname.
  destruct (Z.eqb_spec (id r) 0) as [|Hnz]; [discriminate|].
  intros [= <-]. exists table, r. auto 10.
Qed.

Lemma field_username_by_username (r : user_row) :
  field (by_username_object r) "username" = JStr (username r).
Proof.
  unfold field, by_username_object. cbn.
  rewrite lookup_insert_ne by discriminate. now rewrite lookup_insert_eq.
Qed.

(** Under a key that is unique in the table, the first row the by-id query
    selects is the row itself. *)
Lemma unique_key (table : list user_row) (r r' : user_row) :
  NoDup (map id table) -> In r table -> In r' table -> id r = id r' -> r = r'.
Proof.
  induction table as [|a table IH]; intros Hnd Hr Hr' Hid; [contradiction|].
  cbn in Hnd. inversion Hnd as [|x l Hnotin Hnd']; subst.
  destruct Hr as [<-|Hr], Hr' as [<-|Hr']; auto.
  - exfalso. apply Hnotin. rewrite Hid. apply list_elem_of_In. now apply in_map.
  - exfalso. apply Hnotin. rewrite <- Hid. apply list_elem_of_In.
    now apply in_map.
Qed.

Lemma getUserById_unique (table : list user_row) (r : user_row) :
  NoDup (map id table) -> In r table -> active r = true -> id r <> 0 ->
  getUserById (Database (Ok table)) (id r) = Ok (Some (by_id_object r)).
Proof.
  intros Hnd Hin Hact Hnz. rewrite getUserById_unfold. cbn [users].
  destruct (List.filter _ table) as [|r' rest] eqn:Hf.
  - exfalso. assert (Hr : In r (List.filter
                                  (fun x => (id x =? id r) && active x) table)).
    { apply filter_In. split; [exact Hin|]. now rewrite Z.eqb_refl, Hact. }
    rewrite Hf in Hr. contradiction.
  - apply head_of_filter in Hf as [Hin' Hr'].
    apply andb_true_iff in Hr' as [Hid _]. apply Z.eqb_eq in Hid.
    assert (r' = r) as -> by now apply (unique_key table).
    destruct (Z.eqb_spec (id r) 0); [contradiction|reflexivity].
Qed.

End LookupEdges.

(** X1. A row whose key is [0] is never returned: [getUserById] answers
    [null] for the key [0] whatever the table holds, and every user object
    either lookup returns carries a non-zero [id] (for [getUserById] the key
    asked for, for [getUserByUsername] together with the name asked for). *)
Theorem key_zero_is_never_returned (db : Db.database) :
  (forall table, Db.getUserById (Db.Database (Ok table)) 0 = Ok None) /\
  (forall uid u, Db.getUserById db uid = Ok (Some u) ->
     uid <> 0 /\ Db.field u "id" = JNum uid) /\
  (forall name u, Db.getUserByUsername db name = Ok (Some u) ->
     exists i, i <> 0 /\ Db.field u "id" = JNum i /\
               Db.field u "username" = JStr name).
Proof.
  split; [|split].
  - intros table. rewrite getUserById_unfold. cbn [Db.users].
    destruct (List.filter _ table) as [|r rest] eqn:Hf; [reflexivity|].
    apply head_of_filter in Hf as [_ Hr].
    apply andb_true_iff in Hr as [Hid _]. now rewrite Hid.
  - intros uid u Hu.
    apply getUserById_found in Hu as (table & r & _ & _ & Hid & Hnz & _ & ->).
    split; [exact Hnz|]. now rewrite field_id_by_id, Hid.
  - intros name u Hu.
    apply getUserByUsername_found in Hu
      as (table & r & _ & _ & Hname & Hnz & _ & ->).
    exists (Db.id r). rewrite field_id_by_username, field_username_by_username.
    now rewrite Hname.
Qed.

(** X2. Whenever a lookup finds a user, [hasUsers] answers [true]. *)
Theorem found_user_means_hasUsers (db : Db.database) (u : gmap string jsval) :
  (forall uid, Db.getUserById db uid = Ok (Some u) ->
     Db.hasUsers db = Ok true) /\
  (forall name, Db.getUserByUsername db name = Ok (Some u) ->
     Db.hasUsers db = Ok true).
Proof.
  assert (Hne : forall table (r : Db.user_row),
             Db.users db = Ok table -> In r table -> Db.hasUsers db = Ok true).
  { intros table r Ht Hin. destruct db as [us]. cbn in Ht. subst us.
    destruct table as [|a table]; [contradiction|reflexivity]. }
  split.
  - intros uid Hu.
    apply getUserById_found in Hu as (table & r & Ht & Hin & _). eauto.
  - intros name Hu.
    apply getUserByUsername_found in Hu as (table & r & Ht & Hin & _). eauto.
Qed.

(** X3. [hasUsers] counts deactivated rows too: on a table that is not empty
    and holds only deactivated users it answers [true] while both lookups
    answer [null] for every key. *)
Theorem only_deactivated_users (table : list Db.user_row) :
  table <> [] ->
  (forall r, In r table -> Db.is_active r <> Db.SqlInt 1) ->
  Db.hasUsers (Db.Database (Ok table)) = Ok true /\
  (forall uid, Db.getUserById (Db.Database (Ok table)) uid = Ok None) /\
  (forall name, Db.getUserByUsername (Db.Database (Ok table)) name = Ok None).
Proof.
  intros Hne Hoff. split; [|split].
  - destruct table; [contradiction|reflexivity].
  - intros uid. apply getUserById_deactivated. intros r Hin _. now apply Hoff.
  - intros name. apply getUserByUsername_deactivated.
    intros r Hin _. now apply Hoff.
Qed.

(** X4. With keys that are unique in the table and small enough to be read
    by JavaScript as they are stored, a user found by name is found again
    under the key of that row, as the same row, and a token verified for
    that key authenticates the connection as that user. *)
Theorem login_then_token (table : list Db.user_row) (name : string)
        (u : gmap string jsval) :
  DbWrite.safe_ids table ->
  NoDup (map Db.id table) ->
  Db.getUserByUsername (Db.Database (Ok table)) name = Ok (Some u) ->
  exists r,
    In r table /\ u = Db.by_username_object r /\ Db.username r = name /\
    Db.getUserById (Db.Database (Ok table)) (Db.id r)
      = Ok (Some (Db.by_id_object r)) /\
    forall jwt_verify token n,
      truthy token = true ->
      jwt_verify token = Ok (Auth.Payload (Db.id r) n) ->
      Auth.authenticateWebSocket jwt_verify (Db.Database (Ok table)) token
        = Ok (Some (Auth.principal_object (JNum (Db.id r)) (JStr name))).
Proof.
  intros _ Hnd Hu.
  apply getUserByUsername_found in Hu
    as (table' & r & [= <-] & Hin & Hname & Hnz & Hact & ->).
  pose proof (getUserById_unique table r Hnd Hin Hact Hnz) as Hby.
  exists r. repeat split; try assumption.
  intros jwt_verify token n Htok Hjwt. unfold Auth.authenticateWebSocket.
  rewrite Htok, Hjwt. cbn [negb mbind result_bind bind Auth.userId].
  rewrite Hby. cbn [try_catch mbind result_bind bind].
  now rewrite field_id_by_id, field_username_by_id, Hname.
Qed.

Section LastLogin.
Import Db DbWrite.










End LastLogin.


Section HttpPath.
Import Db Auth.
Variable jwt_verify : jsval -> result jwt_payload.
Variable db : database.

Lemma catch_status (e : error) :
  exists msg, authenticateToken_catch e = Respond 401 msg \/
              authenticateToken_catch e = Respond 500 msg.
Proof.
  unfold authenticateToken_catch.
  repeat match goal with
         | |- context [if ?b then _ else _] => destruct b
         end; eauto.
Qed.

(** How [authenticateToken] ends, case by case. *)
Lemma authenticateToken_cases (req : request) :
  (exists status msg,
     authenticateToken jwt_verify db req = Ok (Respond status msg) /\
     (status = 401 \/ status = 500)) \/
  (exists payload table r,
     truthy (authenticateToken_token req) = true /\
     jwt_verify (authenticateToken_token req) = Ok payload /\
     users db = Ok table /\ In r table /\ id r = userId payload /\
     is_active r = SqlInt 1 /\
     authenticateToken jwt_verify db req
       = Ok (Next (set_user req (by_id_object r)))).
Proof.
  unfold authenticateToken. cbn zeta.
  destruct (truthy (authenticateToken_token req)) eqn:Htok; cbn [negb];
    [|left; eauto 6].
  destruct (jwt_verify (authenticateToken_token req)) as [payload|e] eqn:Hjwt;
    cbn [mbind result_bind bind try_catch].
  2:{ left. destruct (catch_status e) as [msg [-> | ->]]; eauto 6. }
  destruct (getUserById db (userId payload)) as [[u|]|e] eqn:Hu;
    cbn [mbind result_bind bind try_catch].
  - apply getUserById_sound in Hu as (table & r & Ht & Hin & Hid & Hact & ->).
    right. exists payload, table, r. auto 10.
  - left. eauto 6.
  - left. destruct (catch_status e) as [msg [-> | ->]]; eauto 6.
Qed.

End HttpPath.

(** X6. [authenticateToken] never throws and never hands a request on
    without a user: it either answers with status 401 or 500, or calls the
    next handler with [req.user] set to the object of an active row whose
    key is the one the verified token names, the request being otherwise
    unchanged. *)
Theorem authenticateToken_sound
        (jwt_verify : jsval -> result Auth.jwt_payload) (db : Db.database)
        (req : Auth.request) :
  returns (Auth.authenticateToken jwt_verify db req) /\
  (forall status msg,
     Auth.authenticateToken jwt_verify db req = Ok (Auth.Respond status msg) ->
     status = 401 \/ status = 500) /\
  (forall req',
     Auth.authenticateToken jwt_verify db req = Ok (Auth.Next req') ->
     exists payload table r,
       jwt_verify (Auth.authenticateToken_token req) = Ok payload /\
       Db.users db = Ok table /\ In r table /\
       Db.id r = Auth.userId payload /\ Db.is_active r = Db.SqlInt 1 /\
       Auth.user req' = Some (Db.by_id_object r) /\
       Auth.url req' = Auth.url req /\ Auth.headers req' = Auth.headers req /\
       Auth.query req' = Auth.query req).
Proof.
  destruct (authenticateToken_cases jwt_verify db req)
    as [(status & msg & H & Hst)
       | (payload & table & r & _ & Hjwt & Ht & Hin & Hid & Hact & H)];
    rewrite H; (split; [eexists; reflexivity|split]).
  - intros s m [= <- <-]. exact Hst.
  - discriminate.
  - discriminate.
  - intros req' [= <-]. exists payload, table, r. auto 10.
Qed.

(** X7. When the database throws during the lookup of a verified token's
    user, the HTTP path answers 500 (unless the error bears the name of one
    of the three token errors), while the upgrade path answers [null] as
    it does for a bad token. *)
Theorem database_failure_during_authentication
        (jwt_verify : jsval -> result Auth.jwt_payload) (e : error)
        (req : Auth.request) (payload : Auth.jwt_payload) :
  truthy (Auth.authenticateToken_token req) = true ->
  jwt_verify (Auth.authenticateToken_token req) = Ok payload ->
  name e <> "JsonWebTokenError" -> name e <> "TokenExpiredError" ->
  name e <> "NotBeforeError" ->
  Auth.authenticateToken jwt_verify (Db.Database (Throw e)) req
    = Ok (Auth.Respond 500 "Authentication error") /\
  Auth.authenticateWebSocket jwt_verify (Db.Database (Throw e))
                             (Auth.authenticateToken_token req) = Ok None.
Proof.
  intros Htok Hjwt H1 H2 H3. split.
  - unfold Auth.authenticateToken. cbn zeta. rewrite Htok, Hjwt.
    cbn. unfold Auth.authenticateToken_catch.
    apply String.eqb_neq in H1, H2, H3. now rewrite H1, H2, H3.
  - unfold Auth.authenticateWebSocket. now rewrite Htok, Hjwt.
Qed.

(** X8. The two paths accept the same tokens: for a request whose token is
    [token], [authenticateToken] hands the request on exactly when
    [authenticateWebSocket] returns a principal for [token], and the
    principal is the [id] and [username] of the user set on the request. *)
Theorem both_paths_accept_the_same_tokens
        (jwt_verify : jsval -> result Auth.jwt_payload) (db : Db.database)
        (req : Auth.request) :
  ((exists req', Auth.authenticateToken jwt_verify db req = Ok (Auth.Next req'))
   <-> (exists p, Auth.authenticateWebSocket jwt_verify db
                    (Auth.authenticateToken_token req) = Ok (Some p))) /\
  (forall req' u,
     Auth.authenticateToken jwt_verify db req = Ok (Auth.Next req') ->
     Auth.user req' = Some u ->
     Auth.authenticateWebSocket jwt_verify db (Auth.authenticateToken_token req)
       = Ok (Some (Auth.principal_object (Db.field u "id")
                                         (Db.field u "username")))).
Proof.
  unfold Auth.authenticateToken, Auth.authenticateWebSocket. cbn zeta.
  destruct (truthy (Auth.authenticateToken_token req)); cbn [negb].
  2:{ split; [split; intros [x Hx]; discriminate|discriminate]. }
  destruct (jwt_verify (Auth.authenticateToken_token req)) as [payload|e];
    cbn [mbind result_bind bind try_catch].
  2:{ split; [split; intros [x Hx]; try discriminate|].
      - destruct (catch_status e) as [msg [H|H]]; rewrite H in Hx; discriminate.
      - intros req' u Hx.
        destruct (catch_status e) as [msg [H|H]]; rewrite H in Hx; discriminate. }
  destruct (Db.getUserById db (Auth.userId payload)) as [[u|]|e];
    cbn [mbind result_bind bind try_catch].
  - split; [split; eauto|]. now intros req' u' [= <-] [= <-].
  - split; [split; intros [x Hx]; discriminate|discriminate].
  - split; [split; intros [x Hx]; try discriminate|].
    + destruct (catch_status e) as [msg [H|H]]; rewrite H in Hx; discriminate.
    + intros req' u Hx.
      destruct (catch_status e) as [msg [H|H]]; rewrite H in Hx; discriminate.
Qed.

(** X9. [verifyClient] throws only when the URL of the request cannot be
    parsed; otherwise it either refuses and leaves the request as it was,
    or accepts after storing on the request the [id] and [username] of an
    active row whose key is the one the verified token names. *)
Theorem verifyClient_sound
        (URL_searchParams : string -> result (list (string * string)))
        (jwt_verify : jsval -> result Auth.jwt_payload) (db : Db.database)
        (req : Auth.request) :
  (forall e, Auth.verifyClient URL_searchParams jwt_verify db req = Throw e
             <-> URL_searchParams (Auth.url req) = Throw e) /\
  (forall req', Auth.verifyClient URL_searchParams jwt_verify db req
                  = Ok (false, req') -> req' = req) /\
  (forall req', Auth.verifyClient URL_searchParams jwt_verify db req
                  = Ok (true, req') ->
     exists token payload table r,
       Auth.extractWebSocketToken URL_searchParams req = Ok token /\
       jwt_verify token = Ok payload /\ Db.users db = Ok table /\
       In r table /\ Db.id r = Auth.userId payload /\
       Db.is_active r = Db.SqlInt 1 /\
       req' = Auth.set_user req
                (Auth.principal_object (JNum (Db.id r))
                                       (JStr (Db.username r)))).
Proof.
  unfold Auth.verifyClient, Auth.extractWebSocketToken.
  destruct (URL_searchParams (Auth.url req)) as [params|e0];
    cbn [mbind result_bind bind].
  2:{ split; [|split]; [|discriminate|discriminate].
      intros e; split; intros [= ->]; reflexivity. }
  set (token := js_or _ _).
  destruct (authenticateWebSocket_cases jwt_verify db token)
    as [H | (payload & table & r & _ & Hjwt & Ht & Hin & Hid & Hact & H)];
    rewrite H; cbn [mbind result_bind bind].
  - split; [|split]; [split; discriminate| now intros req' [= <-] |discriminate].
  - split; [|split]; [split; discriminate|discriminate|].
    intros req' [= <-]. exists token, payload, table, r. auto 10.
Qed.

Section GuardFacts.
Import Db Auth Guards.

Lemma truthy_JStr_iff (s : string) : truthy (JStr s) = true <-> s <> EmptyString.
Proof.
  cbn. destruct (String.eqb_spec s EmptyString); split; intros H;
    try discriminate; try contradiction; auto.
Qed.

Lemma strict_ne_false (a b : jsval) : strict_ne a b = false <-> a = b.
Proof.
  unfold strict_ne. rewrite negb_false_iff. apply bool_decide_eq_true.
Qed.

Lemma prefix_app (p s : string) :
  String.prefix p s = true <-> exists rest, s = (p ++ rest)%string.
Proof.
  revert s. induction p as [|c p IH]; intros s.
  - split; [intros _; exists s; reflexivity|]. intros _. now destruct s.
  - destruct s as [|d s]; [split; [discriminate|now intros [rest Hr]]|].
    change (String.prefix (String c p) (String d s))
      with (if ascii_dec c d then String.prefix p s else false).
    destruct (ascii_dec c d) as [<-|Hne].
    + rewrite IH. split; intros [rest Hr]; exists rest.
      * now rewrite Hr.
      * now injection Hr.
    + split; [discriminate|]. intros [rest Hr]. injection Hr as Hcd _.
      congruence.
Qed.

(** The first piece [split] yields is the text before the first
    separator. *)
Lemma split_head (sep : ascii) (s : string) :
  exists pieces, split sep s = word sep s :: pieces.
Proof.
  induction s as [|c s [pieces IH]]; cbn; [eauto|].
  destruct (Ascii.eqb c sep); [eauto|]. rewrite IH. eauto.
Qed.

Lemma bearer_token (rest : string) :
  index (split " " ("Bearer " ++ rest)) 1 = JStr (word " " rest).
Proof.
  destruct (split_head " " rest) as [pieces Hp].
  change (split " " ("Bearer " ++ rest)) with ("Bearer" :: split " " rest).
  now rewrite Hp.
Qed.

(** With a key configured, a request passes exactly when the key it
    provides is that key. *)
Lemma validateApiKey_configured (env : gmap string string) (req : request)
      (k : string) :
  env !! "API_KEY" = Some k -> k <> EmptyString ->
  (validateApiKey env req = Next req <->
   js_or (prop (headers req) "x-api-key") (field (query req) "api_key")
   = JStr k).
Proof.
  intros Hk Hne. unfold validateApiKey. cbn zeta.
  assert (Hcfg : prop env "API_KEY" = JStr k) by (unfold prop; now rewrite Hk).
  rewrite !Hcfg, (proj2 (truthy_JStr_iff k) Hne). cbn [negb].
  set (provided := js_or _ _).
  destruct (truthy provided) eqn:Ht; cbn [negb orb]; cbv beta iota.
  - destruct (strict_ne provided (JStr k)) eqn:Hs; cbv beta iota.
    + split; [discriminate|]. intros Hp. apply strict_ne_false in Hp.
      congruence.
    + apply strict_ne_false in Hs. split; [now intros _|reflexivity].
  - split; [discriminate|]. intros Hp. rewrite Hp in Ht.
    rewrite (proj2 (truthy_JStr_iff k) Hne) in Ht. discriminate.
Qed.

Lemma provided_key_is (hs : gmap string string) (q : gmap string jsval)
      (k : string) :
  k <> EmptyString ->
  (js_or (prop hs "x-api-key") (field q "api_key") = JStr k <->
   hs !! "x-api-key" = Some k \/
   (hs !! "x-api-key" = None \/ hs !! "x-api-key" = Some EmptyString) /\
   q !! "api_key" = Some (JStr k)).
Proof.
  intros Hne. unfold prop, field, js_or.
  destruct (hs !! "x-api-key") as [h|].
  - destruct (truthy (JStr h)) eqn:Hh; cbv beta iota.
    + apply truthy_JStr_iff in Hh. split.
      * intros [= ->]. now left.
      * intros [[= ->]|[[[=]|[= ->]] _]]; [reflexivity|contradiction].
    + assert (h = EmptyString) as ->.
      { destruct (String.eqb_spec h EmptyString) as [|Hnz]; [assumption|].
        apply truthy_JStr_iff in Hnz. congruence. }
      destruct (q !! "api_key") as [v|]; unfold default, from_option, Datatypes.id; split.
      * intros ->. right. auto.
      * intros [[= <-]|[_ [= ->]]]; [contradiction|reflexivity].
      * discriminate.
      * intros [[= <-]|[_ [=]]]. contradiction.
  - cbn [truthy]. destruct (q !! "api_key") as [v|]; unfold default, from_option, Datatypes.id; split.
    + intros ->. right. auto.
    + intros [[=]|[_ [= ->]]]. reflexivity.
    + discriminate.
    + intros [[=]|[_ [=]]].
Qed.

End GuardFacts.

(** X10. [validateApiKey] lets every request through when no key is
    configured (unset or empty). With a key configured it lets a request
    through exactly when the [x-api-key] header is that key, or the header
    is absent or empty and the [api_key] query parameter is that key; in
    particular a wrong header is refused even beside a right query
    parameter. Every refusal is a 401. *)
Theorem validateApiKey_passes (env : gmap string string) (req : Auth.request) :
  (Guards.validateApiKey env req = Auth.Next req \/
   Guards.validateApiKey env req = Auth.Respond 401 "Valid API key required") /\
  (env !! "API_KEY" = None \/ env !! "API_KEY" = Some EmptyString ->
   Guards.validateApiKey env req = Auth.Next req) /\
  (forall k, env !! "API_KEY" = Some k -> k <> EmptyString ->
     (Guards.validateApiKey env req = Auth.Next req <->
      Auth.headers req !! "x-api-key" = Some k \/
      (Auth.headers req !! "x-api-key" = None \/
       Auth.headers req !! "x-api-key" = Some EmptyString) /\
      Auth.query req !! "api_key" = Some (JStr k))).
Proof.
  split; [|split].
  - unfold Guards.validateApiKey. cbn zeta.
    destruct (negb (truthy (prop env "API_KEY"))); [now left|].
    destruct (_ || _); [now right|now left].
  - unfold Guards.validateApiKey, prop. now intros [-> | ->].
  - intros k Hk Hne. rewrite (validateApiKey_configured env req k Hk Hne).
    apply provided_key_is. exact Hne.
Qed.

(** X11. [validateAuthHeaders] returns [true] or throws. It accepts a
    request without an authorization header (or with an empty one); a
    non-empty header is accepted exactly when it starts with [Bearer ] and
    the text between that and the next space is at least ten characters
    long, and that text is then the token [authenticateToken] verifies. *)
Theorem validateAuthHeaders_accepts (req : Auth.request) :
  (forall b, Guards.validateAuthHeaders req = Ok b -> b = true) /\
  (Auth.headers req !! "authorization" = None \/
   Auth.headers req !! "authorization" = Some EmptyString ->
   Guards.validateAuthHeaders req = Ok true) /\
  (forall h, Auth.headers req !! "authorization" = Some h ->
     h <> EmptyString ->
     (Guards.validateAuthHeaders req = Ok true <->
      exists rest, h = ("Bearer " ++ rest)%string /\
                   (10 <= String.length (Guards.word " " rest))%nat) /\
     (forall rest, h = ("Bearer " ++ rest)%string ->
        Guards.validateAuthHeaders req = Ok true ->
        Auth.authenticateToken_token req = JStr (Guards.word " " rest))).
Proof.
  split; [|split].
  - unfold Guards.validateAuthHeaders. cbn zeta. intros b.
    destruct (truthy _); [|now intros [= <-]].
    destruct (prop _ _); try discriminate.
    destruct (negb _); [discriminate|].
    destruct (_ || _); [discriminate|now intros [= <-]].
  - unfold Guards.validateAuthHeaders, prop. now intros [-> | ->].
  - intros h Hh Hne.
    assert (Hprop : prop (Auth.headers req) "authorization" = JStr h)
      by (unfold prop; now rewrite Hh).
    assert (Hval : forall rest, h = ("Bearer " ++ rest)%string ->
              Guards.validateAuthHeaders req =
              if (String.length (Guards.word " " rest) <? 10)%nat
              then Throw (Error "Error" "Invalid token format") else Ok true).
    { intros rest ->. unfold Guards.validateAuthHeaders. cbn zeta.
      rewrite Hprop, (proj2 (truthy_JStr_iff _) Hne).
      rewrite (proj2 (prefix_app "Bearer " _)) by eauto. cbn [negb].
      rewrite bearer_token. cbn [Guards.js_length].
      destruct (Nat.ltb_spec (String.length (Guards.word " " rest)) 10) as [Hlt|Hge].
      - rewrite (proj2 (Z.ltb_lt _ _)) by lia. now rewrite orb_true_r.
      - rewrite (proj2 (Z.ltb_ge _ _)) by lia.
        assert (Hw : Guards.word " " rest <> EmptyString)
          by (intros Hw; rewrite Hw in Hge; cbn in Hge; lia).
        now rewrite (proj2 (truthy_JStr_iff _) Hw). }
    split.
    + split.
      * intros Hok.
        destruct (String.prefix "Bearer " h) eqn:Hp.
        -- apply prefix_app in Hp as [rest ->]. exists rest. split; [reflexivity|].
           rewrite (Hval rest eq_refl) in Hok.
           destruct (Nat.ltb_spec (String.length (Guards.word " " rest)) 10);
             [discriminate|assumption].
        -- unfold Guards.validateAuthHeaders in Hok. cbn zeta in Hok.
           rewrite Hprop, (proj2 (truthy_JStr_iff _) Hne), Hp in Hok.
           discriminate.
      * intros (rest & Hrest & Hlen). rewrite (Hval rest Hrest).
        now rewrite (proj2 (Nat.ltb_ge _ _)) by lia.
    + intros rest Hrest Hok. rewrite (Hval rest Hrest) in Hok.
      destruct (Nat.ltb_spec (String.length (Guards.word " " rest)) 10) as [|Hge];
        [discriminate|].
      assert (Hw : Guards.word " " rest <> EmptyString)
        by (intros Hw; rewrite Hw in Hge; cbn in Hge; lia).
      unfold Auth.authenticateToken_token. cbn zeta. rewrite Hprop.
      unfold js_and. rewrite (proj2 (truthy_JStr_iff _) Hne).
      cbn [Auth.split_1]. subst h. rewrite bearer_token.
      rewrite (js_or_truthy (JStr (Guards.word " " rest)))
        by now apply truthy_JStr_iff.
      apply js_or_truthy. now apply truthy_JStr_iff.
Qed.

Section LimiterFacts.
Import Auth Guards.
Variable windowMs max : Z.

(** The limiter in one equation: the client's history is cut to the
    window, and the request is recorded when fewer than [max] remain. *)
Lemma rateLimiter_unfold (m : gmap jsval (list Z)) (c : peer_request) (now : Z) :
  rateLimiter windowMs max m c now =
  let kept := in_window windowMs now (default [] (m !! clientId c)) in
  if max <=? Z.of_nat (length kept)
  then (<[clientId c := kept]> m, Respond 429 "Too many requests")
  else (<[clientId c := (kept ++ [now])%list]> m, Next (http c)).
Proof.
  unfold rateLimiter, in_window. cbn zeta.
  destruct (m !! clientId c) as [l|]; rewrite lookup_insert_eq;
    unfold default, from_option, Datatypes.id; cbn [List.filter];
    destruct (max <=? _); now rewrite ?insert_insert_eq.
Qed.

Lemma rateLimiter_other (m : gmap jsval (list Z)) (c : peer_request) (now : Z)
      (k : jsval) :
  k <> clientId c -> fst (rateLimiter windowMs max m c now) !! k = m !! k.
Proof.
  intros Hne. rewrite rateLimiter_unfold. cbn zeta.
  destruct (max <=? _); cbn [fst]; now rewrite lookup_insert_ne.
Qed.

Lemma filter_length_le {A} (f : A -> bool) (l : list A) :
  (length (List.filter f l) <= length l)%nat.
Proof.
  induction l as [|a l IH]; cbn; [lia|]. destruct (f a); cbn; lia.
Qed.

Lemma filter_narrow (a b : Z) (l : list Z) :
  a <= b ->
  List.filter (fun t => b <? t) (List.filter (fun t => a <? t) l)
  = List.filter (fun t => b <? t) l.
Proof.
  intros Hab. induction l as [|t l IH]; [reflexivity|]. cbn.
  destruct (Z.ltb_spec a t) as [Hat|Hat]; cbn.
  - now rewrite IH.
  - rewrite IH. destruct (Z.ltb_spec b t); [lia|reflexivity].
Qed.

Lemma admitted_times_snoc (k : jsval) (log : list served) (e : served) :
  admitted_times k (log ++ [e]) =
  (admitted_times k log ++
   if bool_decide (who e = k) && admitted e then [at_time e] else [])%list.
Proof.
  unfold admitted_times. rewrite List.filter_app, map_app. cbn.
  now destruct (bool_decide (who e = k) && admitted e).
Qed.

Lemma serve_snoc (m : gmap jsval (list Z)) (pre : list (peer_request * Z))
      (c : peer_request) (now : Z) :
  serve windowMs max m (pre ++ [(c, now)]) =
  let '(m1, log1) := serve windowMs max m pre in
  let '(m2, o) := rateLimiter windowMs max m1 c now in
  (m2, (log1 ++ [Served (clientId c) now (is_next o)])%list).
Proof.
  revert m. induction pre as [|[c0 t0] pre IH]; intros m; cbn.
  - now destruct (rateLimiter windowMs max m c now).
  - destruct (rateLimiter windowMs max m c0 t0) as [m0 o0]. rewrite IH.
    destruct (serve windowMs max m0 pre) as [m1 log1].
    now destruct (rateLimiter windowMs max m1 c now).
Qed.

Lemma last_cons_default {A} (a d d' : A) (l : list A) :
  List.last (a :: l) d = List.last (a :: l) d'.
Proof.
  revert a. induction l as [|b l IH]; intros a; [reflexivity|].
  change (List.last (b :: l) d = List.last (b :: l) d'). apply IH.
Qed.

Lemma clock_snoc (t0 t : Z) (ts : list Z) :
  clock_from t0 (ts ++ [t]) <-> clock_from t0 ts /\ List.last ts t0 <= t.
Proof.
  revert t0. induction ts as [|a ts IH]; intros t0.
  - cbn. tauto.
  - change (clock_from t0 ((a :: ts) ++ [t]))
      with (t0 <= a /\ clock_from a (ts ++ [t])).
    rewrite IH. cbn [clock_from].
    assert (Hl : List.last (a :: ts) t0 = List.last ts a).
    { destruct ts as [|b ts]; [reflexivity|].
      change (List.last (b :: ts) t0 = List.last (b :: ts) a).
      apply last_cons_default. }
    rewrite Hl. tauto.
Qed.

(** One request, seen from the client that sends it. *)
Lemma step_own (T : Z) (m : gmap jsval (list Z)) (log : list served)
      (c : peer_request) (now : Z) :
  0 < windowMs -> T <= now -> limiter_inv windowMs max T m log ->
  let '(m', o) := rateLimiter windowMs max m c now in
  let log' := (log ++ [Served (clientId c) now (is_next o)])%list in
  exists l, m' !! clientId c = Some l /\
            l = in_window windowMs now (admitted_times (clientId c) log') /\
            Z.of_nat (length l) <= Z.max 0 max.
Proof.
  intros Hw HT Hinv. rewrite rateLimiter_unfold. cbn zeta.
  set (k := clientId c).
  assert (Hkept : in_window windowMs now (default [] (m !! k))
                  = in_window windowMs now (admitted_times k log)
                  /\ Z.of_nat (length (default [] (m !! k))) <= Z.max 0 max).
  { specialize (Hinv k). destruct (m !! k) as [l|]; cbn.
    - destruct Hinv as (cut & Hcut & -> & Hlen). split; [|exact Hlen].
      unfold in_window. apply filter_narrow. lia.
    - rewrite Hinv. cbn. split; [reflexivity|lia]. }
  destruct Hkept as [Hkept Hlen].
  pose proof (filter_length_le (fun time => now - windowMs <? time)
                (default [] (m !! k))) as Hle.
  fold (in_window windowMs now (default [] (m !! k))) in Hle.
  destruct (Z.leb_spec max (Z.of_nat (length (in_window windowMs now
                                                (default [] (m !! k))))))
    as [Hfull|Hroom]; cbn [is_next].
  - eexists. rewrite lookup_insert_eq. split; [reflexivity|]. split; [|lia].
    rewrite admitted_times_snoc. cbn [admitted andb]. rewrite andb_false_r.
    now rewrite app_nil_r.
  - eexists. rewrite lookup_insert_eq. split; [reflexivity|]. split.
    + rewrite admitted_times_snoc. cbn [who admitted at_time].
      rewrite bool_decide_eq_true_2 by reflexivity. cbn [andb].
      unfold in_window at 2. rewrite List.filter_app. cbn [List.filter].
      rewrite (proj2 (Z.ltb_lt (now - windowMs) now)) by lia.
      fold (in_window windowMs now (admitted_times k log)). now rewrite Hkept.
    + rewrite length_app. cbn [length]. lia.
Qed.

Lemma step_inv (T : Z) (m : gmap jsval (list Z)) (log : list served)
      (c : peer_request) (now : Z) :
  0 < windowMs -> T <= now -> limiter_inv windowMs max T m log ->
  let '(m', o) := rateLimiter windowMs max m c now in
  limiter_inv windowMs max now m'
              (log ++ [Served (clientId c) now (is_next o)])%list.
Proof.
  intros Hw HT Hinv.
  pose proof (step_own T m log c now Hw HT Hinv) as Hown.
  pose proof (fun k => rateLimiter_other m c now k) as Hother.
  destruct (rateLimiter windowMs max m c now) as [m' o]. cbn [fst] in Hother.
  destruct Hown as (l & Hl & Heq & Hlen).
  intros k. destruct (decide (k = clientId c)) as [->|Hne].
  - rewrite Hl. exists (now - windowMs). split; [lia|]. split; [|exact Hlen].
    exact Heq.
  - rewrite (Hother k Hne). specialize (Hinv k).
    rewrite admitted_times_snoc. cbn [who].
    rewrite bool_decide_eq_false_2 by congruence. cbn [andb].
    rewrite app_nil_r.
    destruct (m !! k) as [l0|]; [|exact Hinv].
    destruct Hinv as (cut & Hcut & Hl0 & Hlen0). exists cut.
    split; [lia|]. split; assumption.
Qed.

Lemma serve_inv (t0 : Z) (trace : list (peer_request * Z)) :
  0 < windowMs -> clock_from t0 (times trace) ->
  limiter_inv windowMs max (List.last (times trace) t0)
              (fst (serve windowMs max ∅ trace))
              (snd (serve windowMs max ∅ trace)).
Proof.
  intros Hw. induction trace as [|[c now] pre IH] using rev_ind; intros Hclock.
  - intros k. cbn [serve fst snd]. now rewrite lookup_empty.
  - unfold times in *. rewrite map_app in *. cbn [map snd] in *.
    apply clock_snoc in Hclock as [Hpre Hlast].
    rewrite last_last. rewrite serve_snoc.
    specialize (IH Hpre).
    pose proof (step_inv _ _ _ c now Hw Hlast IH) as Hstep.
    destruct (serve windowMs max ∅ pre) as [m1 log1]. cbn [fst snd] in *.
    now destruct (rateLimiter windowMs max m1 c now).
Qed.

End LimiterFacts.

(** X12. The limiter keeps its promise along every run whose clock does not
    go backwards: after the run, and at any later moment, no client has more
    than [max] admitted requests within the last [windowMs] milliseconds
    (none at all when [max] is not positive). *)
Theorem rate_limit_window (windowMs max t0 : Z)
        (trace : list (Guards.peer_request * Z)) :
  0 < windowMs ->
  Guards.clock_from t0 (Guards.times trace) ->
  forall (k : jsval) (now : Z),
    List.last (Guards.times trace) t0 <= now ->
    Z.of_nat (length (Guards.in_window windowMs now
                        (Guards.admitted_times k
                           (snd (Guards.serve windowMs max ∅ trace)))))
    <= Z.max 0 max.
Proof.
  intros Hw Hclock k now Hnow.
  pose proof (serve_inv windowMs max t0 trace Hw Hclock k) as Hinv.
  destruct (fst (Guards.serve windowMs max ∅ trace) !! k) as [l|].
  - destruct Hinv as (cut & Hcut & Hl & Hlen).
    unfold Guards.in_window.
    rewrite <- (filter_narrow cut (now - windowMs)) by lia. rewrite <- Hl.
    pose proof (filter_length_le (fun t => now - windowMs <? t) l). lia.
  - rewrite Hinv. cbn. lia.
Qed.

(** X13. Clients do not affect each other: a request leaves the history of
    every other client as it was, and what the limiter answers and records
    for a client depends on that client's history only. *)
Theorem limiter_clients_are_independent (windowMs max : Z)
        (m1 m2 : gmap jsval (list Z)) (c : Guards.peer_request) (now : Z) :
  (forall k, k <> Guards.clientId c ->
     fst (Guards.rateLimiter windowMs max m1 c now) !! k = m1 !! k) /\
  (m1 !! Guards.clientId c = m2 !! Guards.clientId c ->
   snd (Guards.rateLimiter windowMs max m1 c now)
     = snd (Guards.rateLimiter windowMs max m2 c now) /\
   fst (Guards.rateLimiter windowMs max m1 c now) !! Guards.clientId c
     = fst (Guards.rateLimiter windowMs max m2 c now) !! Guards.clientId c).
Proof.
  split.
  - intros k. apply rateLimiter_other.
  - intros Hsame. rewrite !rateLimiter_unfold. cbn zeta. rewrite Hsame.
    destruct (max <=? _); cbn [fst snd]; now rewrite !lookup_insert_eq.
Qed.

(** X14. A refused request leaves no trace: the client's history is then
    just the old one cut to the window. The answer is 429 exactly when at
    least [max] recorded times lie within the window, so with a positive
    [max] a client whose recorded times have all left the window is
    admitted again, with a history holding only the new request. *)
Theorem refused_request_is_not_recorded (windowMs max : Z)
        (m : gmap jsval (list Z)) (c : Guards.peer_request) (now : Z) :
  let old := default [] (m !! Guards.clientId c) in
  (snd (Guards.rateLimiter windowMs max m c now)
     = Auth.Respond 429 "Too many requests" <->
   max <= Z.of_nat (length (Guards.in_window windowMs now old))) /\
  (snd (Guards.rateLimiter windowMs max m c now)
     = Auth.Respond 429 "Too many requests" ->
   fst (Guards.rateLimiter windowMs max m c now)
     = <[Guards.clientId c := Guards.in_window windowMs now old]> m) /\
  (0 < max -> (forall t, In t old -> t <= now - windowMs) ->
   Guards.rateLimiter windowMs max m c now
     = (<[Guards.clientId c := [now]]> m, Auth.Next (Guards.http c))).
Proof.
  cbn zeta. rewrite rateLimiter_unfold. cbn zeta.
  split; [|split].
  - destruct (Z.leb_spec max (Z.of_nat (length
              (Guards.in_window windowMs now
                 (default [] (m !! Guards.clientId c)))))); cbn [snd];
      split; try discriminate; try lia; auto.
  - destruct (max <=? _); cbn [fst snd]; [reflexivity|discriminate].
  - intros Hmax Hold.
    assert (Hnone : Guards.in_window windowMs now
                      (default [] (m !! Guards.clientId c)) = []).
    { apply filter_nil_of_all_false. intros t Ht.
      apply Z.ltb_ge. now apply Hold. }
    rewrite Hnone. cbn [length app]. change (Z.of_nat 0) with 0.
    now rewrite (proj2 (Z.leb_gt max 0)) by lia.
Qed.

(** X15. The chain [validateApiKey, authRateLimit, authenticateToken] never
    throws and runs in that order: a request refused for its API key does
    not reach the limiter, whose histories stay as they were; a request
    that passes the key check is counted by the limiter whether or not its
    token is good; and a request reaches the route only if the key check
    passed, the limiter admitted it and [authenticateToken] set a user. *)
Theorem fullProtection_order
        (jwt_verify : jsval -> result Auth.jwt_payload) (db : Db.database)
        (env : gmap string string) (m : gmap jsval (list Z))
        (c : Guards.peer_request) (now : Z) :
  returns (Guards.fullProtection jwt_verify db env m c now) /\
  (forall status e,
     Guards.validateApiKey env (Guards.http c) = Auth.Respond status e ->
     Guards.fullProtection jwt_verify db env m c now
       = Ok (m, Auth.Respond status e)) /\
  (Guards.validateApiKey env (Guards.http c) = Auth.Next (Guards.http c) ->
   exists o,
     Guards.fullProtection jwt_verify db env m c now
       = Ok (fst (Guards.authRateLimit m c now), o)) /\
  (forall m' req',
     Guards.fullProtection jwt_verify db env m c now = Ok (m', Auth.Next req') ->
     Guards.validateApiKey env (Guards.http c) = Auth.Next (Guards.http c) /\
     Guards.authRateLimit m c now = (m', Auth.Next (Guards.http c)) /\
     Auth.authenticateToken jwt_verify db (Guards.http c)
       = Ok (Auth.Next req') /\
     exists u, Auth.user req' = Some u).
Proof.
  unfold Guards.fullProtection.
  destruct (validateApiKey_passes env (Guards.http c)) as [[Hkey|Hkey] _];
    rewrite Hkey.
  2:{ split; [eexists; reflexivity|]. split; [now intros s e [= <- <-]|].
      split; [discriminate|discriminate]. }
  assert (Hsame : Guards.PeerRequest (Guards.http c) (Guards.ip c)
                    (Guards.remoteAddress c) = c) by now destruct c.
  rewrite Hsame.
  assert (Hlim : snd (Guards.authRateLimit m c now)
                 = Auth.Respond 429 "Too many requests" \/
                 snd (Guards.authRateLimit m c now) = Auth.Next (Guards.http c)).
  { unfold Guards.authRateLimit. rewrite rateLimiter_unfold. cbn zeta.
    destruct (_ <=? _); cbn [snd]; auto. }
  destruct (Guards.authRateLimit m c now) as [m1 o1]. cbn [fst snd] in *.
  destruct Hlim as [-> | ->].
  { split; [eexists; reflexivity|]. split; [discriminate|].
    split; [eauto|discriminate]. }
  destruct (authenticateToken_sound jwt_verify db (Guards.http c))
    as ([o Ho] & _ & Hnext).
  rewrite Ho. cbn [mbind result_bind bind].
  split; [eexists; reflexivity|]. split; [discriminate|]. split; [eauto|].
  intros m' req' [= <- ->]. repeat split.
  destruct (Hnext req' Ho) as (payload & table & r & _ & _ & _ & _ & _ & Hu & _).
  eauto.
Qed.

Section CacheFacts.
Import Caches.

Lemma foldl_delete_lookup (now : Z) (l : list (jsval * entry))
      (m : gmap jsval entry) (k : jsval) :
  foldl (fun cache '(token, data) =>
           if CACHE_TTL <? now - timestamp data then delete token cache
           else cache) m l !! k
  = if existsb (fun '(token, data) =>
                  bool_decide (token = k) && (CACHE_TTL <? now - timestamp data))
               l
    then None else m !! k.
Proof.
  revert m. induction l as [|[k' d] l IH]; intros m; [reflexivity|].
  cbn [foldl existsb]. rewrite IH.
  destruct (existsb _ l); [now rewrite orb_true_r|]. rewrite orb_false_r.
  destruct (CACHE_TTL <? now - timestamp d); [|now rewrite andb_false_r].
  rewrite andb_true_r, lookup_delete.
  destruct (decide (k' = k)) as [->|Hne].
  - now rewrite bool_decide_eq_true_2.
  - now rewrite bool_decide_eq_false_2.
Qed.

(** The cleanup deletes exactly the entries older than the time to live. *)
Lemma cleanup_lookup (cache : gmap jsval entry) (now : Z) (k : jsval) :
  cleanupTokenCache cache now !! k =
  match cache !! k with
  | Some e => if CACHE_TTL <? now - timestamp e then None else Some e
  | None => None
  end.
Proof.
  unfold cleanupTokenCache. rewrite foldl_delete_lookup.
  destruct (existsb _ (map_to_list cache)) eqn:Hex.
  - apply existsb_exists in Hex as ([k' d] & Hin & Hk).
    apply andb_true_iff in Hk as [Hk Hold]. apply bool_decide_eq_true in Hk.
    subst k'. apply list_elem_of_In, elem_of_map_to_list in Hin.
    now rewrite Hin, Hold.
  - destruct (cache !! k) as [e|] eqn:He; [|reflexivity].
    destruct (CACHE_TTL <? now - timestamp e) eqn:Hold; [|reflexivity].
    exfalso. apply not_true_iff_false in Hex. apply Hex.
    apply existsb_exists. exists (k, e). split.
    + now apply list_elem_of_In, elem_of_map_to_list.
    + now rewrite bool_decide_eq_true_2, Hold.
Qed.

Lemma set_lookup_own (cache : gmap jsval entry) (token : jsval)
      (u : option (gmap string jsval)) (now later : Z) :
  later - now <= CACHE_TTL ->
  setCachedTokenValidation cache token u now later !! token
  = Some (Entry u now).
Proof.
  intros Hsoon. unfold setCachedTokenValidation. cbn zeta.
  destruct (1000 <? _); [|apply lookup_insert_eq].
  rewrite cleanup_lookup, lookup_insert_eq. cbn [timestamp].
  now rewrite (proj2 (Z.ltb_ge _ _)) by lia.
Qed.

Lemma get_after_cleanup (cache : gmap jsval entry) (now t : Z) (token : jsval) :
  now <= t ->
  getCachedTokenValidation (cleanupTokenCache cache now) token t
  = getCachedTokenValidation cache token t.
Proof.
  intros Hlater. unfold getCachedTokenValidation. rewrite cleanup_lookup.
  destruct (cache !! token) as [e|]; [|reflexivity].
  destruct (Z.ltb_spec CACHE_TTL (now - timestamp e)); [|reflexivity].
  now rewrite (proj2 (Z.ltb_ge _ _)) by lia.
Qed.

End CacheFacts.

(** X16. A validation that has been cached is returned for the next five
    minutes and not after: when the cleanup a store may trigger runs no
    later than five minutes after the entry was stamped, a lookup of the
    token returns the stored user while less than [CACHE_TTL] has passed
    since the stamp, and [null] from then on. *)
Theorem token_cache_round_trip (cache : gmap jsval Caches.entry)
        (token : jsval) (u : option (gmap string jsval)) (now later t : Z) :
  later - now <= Caches.CACHE_TTL ->
  (t - now < Caches.CACHE_TTL ->
   Caches.getCachedTokenValidation
     (Caches.setCachedTokenValidation cache token u now later) token t = u) /\
  (Caches.CACHE_TTL <= t - now ->
   Caches.getCachedTokenValidation
     (Caches.setCachedTokenValidation cache token u now later) token t = None).
Proof.
  intros Hsoon. unfold Caches.getCachedTokenValidation.
  rewrite set_lookup_own by exact Hsoon. cbn [Caches.timestamp Caches.user].
  split; intros Ht.
  - now rewrite (proj2 (Z.ltb_lt _ _)) by lia.
  - now rewrite (proj2 (Z.ltb_ge _ _)) by lia.
Qed.

(** X17. The cleanup cannot be observed through lookups: at the moment it
    runs and at any later one, every token validates to what it would have
    without the cleanup; and storing one token leaves the validation of
    every other token as it was. *)
Theorem cleanup_is_invisible (cache : gmap jsval Caches.entry) (now t : Z) :
  now <= t ->
  (forall token,
     Caches.getCachedTokenValidation (Caches.cleanupTokenCache cache now) token t
     = Caches.getCachedTokenValidation cache token t) /\
  (forall token other u stamp, other <> token ->
     Caches.getCachedTokenValidation
       (Caches.setCachedTokenValidation cache token u stamp now) other t
     = Caches.getCachedTokenValidation cache other t).
Proof.
  intros Hlater. split.
  - intros token. now apply get_after_cleanup.
  - intros token other u stamp Hne. unfold Caches.setCachedTokenValidation.
    cbn zeta. destruct (1000 <? _).
    + rewrite get_after_cleanup by exact Hlater.
      unfold Caches.getCachedTokenValidation.
      now rewrite lookup_insert_ne by congruence.
    + unfold Caches.getCachedTokenValidation.
      now rewrite lookup_insert_ne by congruence.
Qed.

(** X18. [getCachedUser] asks the database only on a miss. A user that was
    found keeps being returned from the cache whatever the database says
    afterwards (deactivated, table gone), with no new timer; a lookup that
    found nobody caches nothing; and once the entry has expired the
    database decides again. *)
Theorem cached_user_ignores_database
        (db : Db.database) (userCache : gmap Z (gmap string jsval))
        (uid : Z) (r : Caches.cached_lookup) :
  Caches.getCachedUser db userCache uid = Ok r ->
  (forall u, Caches.value r = Some u ->
     forall db', Caches.getCachedUser db' (Caches.cache_after r) uid
                 = Ok (Caches.CachedLookup (Some u) (Caches.cache_after r) [])) /\
  (Caches.value r = None ->
   Caches.cache_after r = userCache /\ Caches.timers r = []) /\
  (forall db',
     Caches.getCachedUser db' (Caches.expire (Caches.cache_after r) uid) uid
     = match Db.getUserById db' uid with
       | Ok (Some u) =>
           Ok (Caches.CachedLookup
                 (Some u)
                 (<[uid := u]> (Caches.expire (Caches.cache_after r) uid))
                 [(uid, Caches.USER_TTL)])
       | Ok None =>
           Ok (Caches.CachedLookup
                 None (Caches.expire (Caches.cache_after r) uid) [])
       | Throw e => Throw e
       end).
Proof.
  intros Hr. split; [|split].
  - intros u Hu db'. unfold Caches.getCachedUser in *.
    destruct (userCache !! uid) as [u0|] eqn:Hc.
    + injection Hr as <-. cbn in *. injection Hu as <-. now rewrite Hc.
    + destruct (Db.getUserById db uid) as [[u1|]|e]; cbn in Hr;
        try discriminate; injection Hr as <-; cbn in *; [|discriminate].
      injection Hu as <-. now rewrite lookup_insert_eq.
  - intros Hnone. unfold Caches.getCachedUser in Hr.
    destruct (userCache !! uid) as [u0|].
    + injection Hr as <-. discriminate.
    + destruct (Db.getUserById db uid) as [[u1|]|e]; cbn in Hr;
        try discriminate; injection Hr as <-; [discriminate|auto].
  - intros db'. unfold Caches.getCachedUser at 1, Caches.expire.
    rewrite lookup_delete_eq.
    now destruct (Db.getUserById db' uid) as [[u1|]|e].
Qed.

(** ** The properties at work on the examples *)

Lemma key_zero_is_never_returned_witness :
  1 <> 0 /\ Db.field (Db.by_id_object Demo.alice) "id" = JNum 1.
Proof.
  destruct (key_zero_is_never_returned Demo.db) as (_ & Hid & _).
  apply (Hid 1 (Db.by_id_object Demo.alice)). reflexivity.
Defined.

Lemma found_user_means_hasUsers_witness : Db.hasUsers Demo.db = Ok true.
Proof.
  destruct (found_user_means_hasUsers Demo.db (Db.by_id_object Demo.alice))
    as [Hid _].
  apply (Hid 1). reflexivity.
Defined.

Lemma bob_is_not_active :
  forall r, In r [Demo.bob] -> Db.is_active r <> Db.SqlInt 1.
Proof. intros r [<-|[]]. discriminate. Qed.

Lemma only_deactivated_users_witness :
  Db.hasUsers (Db.Database (Ok [Demo.bob])) = Ok true /\
  Db.getUserByUsername (Db.Database (Ok [Demo.bob])) "bob" = Ok None.
Proof.
  destruct (only_deactivated_users [Demo.bob]) as (Hhas & _ & Hname);
    [discriminate | exact bob_is_not_active |].
  split; [exact Hhas | apply Hname].
Defined.

Lemma demo_keys_unique : NoDup (map Db.id Demo.table).
Proof. apply NoDup_ListNoDup. repeat constructor; cbn; intuition lia. Qed.

Lemma demo_ids_safe : DbWrite.safe_ids Demo.table.
Proof.
  intros r [<-|[<-|[]]]; unfold DbWrite.MAX_SAFE_INTEGER; cbn; lia.
Qed.

Lemma login_then_token_witness :
  exists r, In r Demo.table /\
            Db.getUserById Demo.db (Db.id r) = Ok (Some (Db.by_id_object r)).
Proof.
  destruct (login_then_token Demo.table "alice"
              (Db.by_username_object Demo.alice) demo_ids_safe
              demo_keys_unique eq_refl)
    as (r & Hin & _ & _ & Hid & _).
  exists r. split; [exact Hin | exact Hid].
Defined.


Lemma authenticateToken_sound_witness :
  exists r, In r Demo.table /\ Db.is_active r = Db.SqlInt 1.
Proof.
  destruct (authenticateToken_sound Demo.verify Demo.db Samples.good)
    as (_ & _ & Hnext).
  destruct (Hnext (Auth.set_user Samples.good (Db.by_id_object Demo.alice))
                  eq_refl)
    as (payload & table & r & _ & [= <-] & Hin & _ & Hact & _).
  exists r. split; [exact Hin | exact Hact].
Defined.

Lemma database_failure_during_authentication_witness :
  Auth.authenticateToken Demo.verify Db.fresh Samples.good
  = Ok (Auth.Respond 500 "Authentication error").
Proof.
  refine (proj1 (database_failure_during_authentication Demo.verify
                   Db.no_such_table Samples.good (Auth.Payload 1 "alice")
                   _ _ _ _ _));
    [reflexivity | reflexivity | discriminate | discriminate | discriminate].
Defined.

Lemma both_paths_accept_the_same_tokens_witness :
  exists req', Auth.authenticateToken Demo.verify Demo.db Samples.good
               = Ok (Auth.Next req').
Proof.
  destruct (both_paths_accept_the_same_tokens Demo.verify Demo.db Samples.good)
    as [[_ Hback] _].
  apply Hback. eexists. reflexivity.
Defined.

Lemma verifyClient_sound_witness :
  exists r, In r Demo.table /\ Db.is_active r = Db.SqlInt 1.
Proof.
  destruct (verifyClient_sound Demo.plain_searchParams Demo.verify Demo.db
              Demo.both) as (_ & _ & Hacc).
  destruct (Hacc (Auth.set_user Demo.both
                    (Auth.principal_object (JNum 1) (JStr "alice"))) eq_refl)
    as (token & payload & table & r & _ & _ & [= <-] & Hin & _ & Hact & _).
  exists r. split; [exact Hin | exact Hact].
Defined.

Lemma validateApiKey_passes_witness :
  Guards.validateApiKey Samples.keyed Samples.shadowed
  <> Auth.Next Samples.shadowed.
Proof.
  destruct (validateApiKey_passes Samples.keyed Samples.shadowed)
    as (_ & _ & Hiff).
  intros Hpass.
  apply (Hiff "secret-key") in Hpass; [|reflexivity|discriminate].
  destruct Hpass as [H | [[H | H] _]]; discriminate H.
Defined.

Lemma validateAuthHeaders_accepts_witness :
  Guards.validateAuthHeaders Samples.good = Ok true.
Proof.
  destruct (validateAuthHeaders_accepts Samples.good) as (_ & _ & Hhdr).
  destruct (Hhdr "Bearer token-of-1") as [[_ Hback] _];
    [reflexivity | discriminate |].
  apply Hback. exists "token-of-1". split; [reflexivity | cbn; lia].
Defined.

Lemma rate_limit_window_witness :
  Z.of_nat (length (Guards.in_window 1000 1500
                      (Guards.admitted_times (JStr "10.0.0.1")
                         (snd (Guards.serve 1000 2 ∅ Samples.burst)))))
  <= Z.max 0 2.
Proof.
  apply (rate_limit_window 1000 2 0 Samples.burst); cbn; lia.
Defined.

Lemma limiter_clients_are_independent_witness :
  fst (Guards.rateLimiter 1000 2 Samples.quiet Samples.peer_b 5)
    !! JStr "10.0.0.1" = Some [0; 1].
Proof.
  destruct (limiter_clients_are_independent 1000 2 Samples.quiet Samples.quiet
              Samples.peer_b 5) as [Hother _].
  rewrite Hother; [reflexivity | discriminate].
Defined.

Lemma refused_request_is_not_recorded_witness :
  Guards.rateLimiter 1000 2 Samples.quiet Samples.peer_a 5000
  = (<[JStr "10.0.0.1" := [5000]]> Samples.quiet, Auth.Next Samples.good).
Proof.
  destruct (refused_request_is_not_recorded 1000 2 Samples.quiet
              Samples.peer_a 5000) as (_ & _ & Hagain).
  apply Hagain; [lia|]. intros t [<-|[<-|[]]]; lia.
Defined.

Lemma fullProtection_order_witness :
  Guards.fullProtection Demo.verify Demo.db Samples.keyed Samples.quiet
    Samples.peer_a 5
  = Ok (Samples.quiet, Auth.Respond 401 "Valid API key required").
Proof.
  destruct (fullProtection_order Demo.verify Demo.db Samples.keyed
              Samples.quiet Samples.peer_a 5) as (_ & Hkey & _).
  apply Hkey. reflexivity.
Defined.

Lemma token_cache_round_trip_witness :
  Caches.getCachedTokenValidation
    (Caches.setCachedTokenValidation ∅ (JStr "token-of-1")
       (Some (Db.by_id_object Demo.alice)) 0 1) (JStr "token-of-1") 299999
  = Some (Db.by_id_object Demo.alice).
Proof.
  destruct (token_cache_round_trip ∅ (JStr "token-of-1")
              (Some (Db.by_id_object Demo.alice)) 0 1 299999) as [Hhit _];
    [unfold Caches.CACHE_TTL; lia|].
  apply Hhit. unfold Caches.CACHE_TTL. lia.
Defined.

Lemma cleanup_is_invisible_witness :
  Caches.getCachedTokenValidation
    (Caches.cleanupTokenCache Samples.warm 400000) (JStr "token-of-1") 400000
  = Caches.getCachedTokenValidation Samples.warm (JStr "token-of-1") 400000.
Proof.
  destruct (cleanup_is_invisible Samples.warm 400000 400000) as [Hsame _];
    [lia|].
  apply Hsame.
Defined.

Example first_lookup_fills_the_cache :
  Caches.getCachedUser Demo.db ∅ 1
  = Ok (Caches.CachedLookup (Some (Db.by_id_object Demo.alice))
                            (<[1 := Db.by_id_object Demo.alice]> ∅)
                            [(1, Caches.USER_TTL)]).
Proof. reflexivity. Qed.

Lemma cached_user_ignores_database_witness :
  Caches.getCachedUser Db.fresh (<[1 := Db.by_id_object Demo.alice]> ∅) 1
  = Ok (Caches.CachedLookup (Some (Db.by_id_object Demo.alice))
                            (<[1 := Db.by_id_object Demo.alice]> ∅) []).
Proof.
  destruct (cached_user_ignores_database Demo.db ∅ 1 _
              first_lookup_fills_the_cache) as (Hstale & _).
  apply (Hstale (Db.by_id_object Demo.alice) eq_refl Db.fresh).
Defined.

Section GitFacts.
Import Git.

Lemma base_command (command : string) :
  index (split " " command) 0 = JStr (Guards.word " " command).
Proof. destruct (split_head " " command) as [pieces ->]. reflexivity. Qed.

Lemma includes_In (arr : list string) (w : string) :
  includes arr (JStr w) = true <-> In w arr.
Proof.
  unfold includes. rewrite existsb_exists. split.
  - intros (a & Hin & Ha). apply bool_decide_eq_true in Ha.
    injection Ha as ->. exact Hin.
  - intros Hin. exists w. split; [exact Hin|]. now apply bool_decide_eq_true.
Qed.

Lemma allowed_word (base rest : string) :
  In base allowedCommands ->
  Guards.word " " (base ++ String " " rest) = base.
Proof.
  intros Hin. repeat (destruct Hin as [<-|Hin]; [reflexivity|]). destruct Hin.
Qed.

Lemma classify_lists (r : status_lists) (line : string) :
  let st := String.substring 0 2 line in
  let name := substring_from 3 line in
  classify r line =
  StatusLists
    (staged r ++ if contains "A" st || contains "M" st then [name] else [])
    (modified r ++
     if negb (contains "A" st) && negb (contains "M" st) && contains "D" st
     then [name] else [])
    (untracked r ++ if String.eqb st "??" then [name] else []).
Proof.
  cbn zeta. unfold classify.
  destruct (String.eqb_spec (String.substring 0 2 line) "??") as [->|Hne].
  - cbn. rewrite !app_nil_r. reflexivity.
  - destruct (contains "A" _), (contains "M" _), (contains "D" _); cbn;
      rewrite ?app_nil_r; try reflexivity; now destruct r.
Qed.

End GitFacts.

(** X19. [execGitCommand] checks the first word only: a command reaches the
    shell, unchanged behind [git ], exactly when the text before its first
    space is one of the ten allowed words, and is refused with an error
    otherwise; whatever follows an allowed word is passed on as it is, and
    so is every list of file names given to the add-multiple route. *)
Theorem git_whitelist_checks_first_word
        (exec : string -> string -> result string) (command cwd : string) :
  (In (Guards.word " " command) Git.allowedCommands ->
   Git.execGitCommand exec command cwd = exec ("git " ++ command)%string cwd) /\
  (~ In (Guards.word " " command) Git.allowedCommands ->
   Git.execGitCommand exec command cwd
   = Throw (Error "Error" "Git command not allowed")) /\
  (forall base rest, In base Git.allowedCommands ->
     Git.execGitCommand exec (base ++ String " " rest) cwd
     = exec ("git " ++ (base ++ String " " rest))%string cwd) /\
  (forall files,
     Git.add_multiple exec files cwd
     = exec ("git add " ++
             String.concat " "
               (map (fun f => String Git.dquote
                                (f ++ String Git.dquote EmptyString)) files))%string
            cwd).
Proof.
  assert (Hin : forall cmd, In (Guards.word " " cmd) Git.allowedCommands ->
            Git.execGitCommand exec cmd cwd = exec ("git " ++ cmd)%string cwd).
  { intros cmd Hw. unfold Git.execGitCommand. cbn zeta. rewrite base_command.
    now rewrite (proj2 (includes_In _ _) Hw). }
  split; [apply Hin|]. split; [|split].
  - intros Hout. unfold Git.execGitCommand. cbn zeta. rewrite base_command.
    destruct (Git.includes _ _) eqn:Hinc; [|reflexivity].
    apply includes_In in Hinc. contradiction.
  - intros base rest Hbase. apply Hin. now rewrite allowed_word.
  - intros files. unfold Git.add_multiple. cbn zeta.
    change ("add " ++ ?x)%string with ("add" ++ String " " x)%string.
    rewrite Hin; [reflexivity|].
    rewrite allowed_word; cbn; auto.
Qed.

Lemma git_whitelist_checks_first_word_witness :
  Git.execGitCommand (fun line _ => Ok line) "status --short; echo pwned"
                     "/tmp/p1"
  = Ok "git status --short; echo pwned".
Proof.
  destruct (git_whitelist_checks_first_word (fun line _ => Ok line)
              "status --short; echo pwned" "/tmp/p1") as (_ & _ & Hrest & _).
  apply (Hrest "status" "--short; echo pwned"). cbn. auto.
Defined.

Example glued_semicolon_is_refused :
  Git.execGitCommand (fun line _ => Ok line) "status; echo pwned" "/tmp/p1"
  = Throw (Error "Error" "Git command not allowed").
Proof. reflexivity. Qed.

Example porcelain_example :
  Git.parse_status (Git.StatusLists [] [] [])
    (" M a.js" ++ String Git.newline
       ("D  b.js" ++ String Git.newline
          ("?? c.js" ++ String Git.newline EmptyString)))
  = Git.StatusLists ["a.js"] ["b.js"] ["c.js"].
Proof. reflexivity. Qed.

(** X20. The status route sorts the lines of the porcelain output by their
    first two characters: a line with an [A] or an [M] among them is listed
    as staged; a line is listed as modified only when it has a [D] and
    neither [A] nor [M], so a file changed in the work tree alone counts as
    staged; a line is listed as untracked when the two characters are
    [??]; every other line, the empty one behind a final line feed
    included, is dropped. The name listed is the line from its fourth
    character on. *)
Theorem status_lines_are_sorted_by_two_characters
        (result : Git.status_lists) (statusOutput : string) :
  let lines := split Git.newline statusOutput in
  let st := fun line => String.substring 0 2 line in
  let names := map (Git.substring_from 3) in
  Git.staged (Git.parse_status result statusOutput)
  = (Git.staged result ++
     names (List.filter (fun l => Git.contains "A" (st l) || Git.contains "M" (st l))
                        lines))%list /\
  Git.modified (Git.parse_status result statusOutput)
  = (Git.modified result ++
     names (List.filter (fun l => negb (Git.contains "A" (st l)) &&
                                  negb (Git.contains "M" (st l)) &&
                                  Git.contains "D" (st l)) lines))%list /\
  Git.untracked (Git.parse_status result statusOutput)
  = (Git.untracked result ++
     names (List.filter (fun l => String.eqb (st l) "??") lines))%list.
Proof.
  cbn zeta. unfold Git.parse_status.
  generalize (split Git.newline statusOutput) as lines. intros lines.
  revert result. induction lines as [|line lines IH]; intros result.
  - cbn. now rewrite !app_nil_r.
  - cbn [fold_left List.filter]. destruct (IH (Git.classify result line))
      as (Hs & Hm & Hu).
    rewrite Hs, Hm, Hu. rewrite classify_lists. cbn zeta.
    cbn [Git.staged Git.modified Git.untracked].
    rewrite <- !app_assoc.
    repeat split; f_equal;
      match goal with
      | |- context [if ?b then _ else _] => destruct b
      end; reflexivity.
Qed.
